(** * Electrical component classifier: the prediction module and its facade

    A shallow embedding of [backend/dep.py] (class [ElectricalComponentPredictor])
    and of the lazy singleton [get_predictor] of [backend/app.py].

    Conventions of the embedding.
    - A Python [dict] is an association list with pairwise distinct keys, kept
      in insertion order (module [Py]).
    - A Python [float] and a torch scalar are idealised as a real number:
      rounding, infinities and NaN are not modelled.
    - Code that can raise returns a value of [Exc]; a [try]/[except] block is a
      [match] on it.
    - The file system is a function from paths to files; a file is described by
      what its readers ([json.load], [torch.load], [Image.open]) make of it.
      A class-map file that parses is a JSON object with string labels.
    - The random generator that a dropout layer would consume is an explicit
      argument of the forward pass. *)

From Stdlib Require Import List String Ascii Bool Arith ZArith Lia.
From Stdlib Require Import Reals Lra Permutation Sorted.
From Stdlib Require Import DecimalString DecimalNat.
Import ListNotations.

Local Open Scope string_scope.
Local Open Scope list_scope.
Local Open Scope nat_scope.

(* ================================================================== *)
(** * Part I: the program *)
(* ================================================================== *)

(** ** Python values: exceptions, dictionaries, [str] and [int] *)

Module Py.

(** The exceptions that the modelled code can raise; [str_exc] is [str(e)]. *)
Inductive PyExc : Type :=
| FileNotFoundError (msg : string)
| JSONDecodeError (msg : string)
| UnpicklingError (msg : string)
| RuntimeError (msg : string)
| OSError (msg : string)
| TypeError (msg : string)
| ValueError (msg : string)
| IndexError (msg : string)
| KeyError (key : string).

(** [repr] of a string without quotes, backslashes or control characters. *)
Definition repr (s : string) : string := ("'" ++ s ++ "'")%string.

Definition str_exc (e : PyExc) : string :=
  match e with
  | FileNotFoundError msg | JSONDecodeError msg | UnpicklingError msg
  | RuntimeError msg | OSError msg | TypeError msg | ValueError msg | IndexError msg => msg
  | KeyError key => repr key
  end.

(** The error monad of code that may raise. *)
Inductive Exc (A : Type) : Type :=
| Ok (a : A)
| Raise (e : PyExc).
Arguments Ok {A} a.
Arguments Raise {A} e.

Definition bind {A B : Type} (c : Exc A) (k : A -> Exc B) : Exc B :=
  match c with
  | Ok a => k a
  | Raise e => Raise e
  end.

(** *** [dict]: insertion-ordered, keys compared with [==] *)
Section Dict.
Context {V : Type}.

Definition dict : Type := list (string * V).

Fixpoint get (k : string) (d : dict) : option V :=
  match d with
  | [] => None
  | (k', v) :: d' => if String.eqb k k' then Some v else get k d'
  end.

(** [d[k] = v]: an existing key keeps its position, a new one goes last. *)
Fixpoint set (k : string) (v : V) (d : dict) : dict :=
  match d with
  | [] => [(k, v)]
  | (k', v') :: d' =>
      if String.eqb k k' then (k', v) :: d' else (k', v') :: set k v d'
  end.

(** [d[k]] *)
Definition getitem (d : dict) (k : string) : Exc V :=
  match get k d with
  | Some v => Ok v
  | None => Raise (KeyError k)
  end.

Definition items (d : dict) : list (string * V) := d.
Definition keys (d : dict) : list string := map fst d.
Definition values (d : dict) : list V := map snd d.
Definition len (d : dict) : nat := List.length d.

(** The dictionary that [json.load] builds from the members of a JSON
    object, in the order of the text; a repeated name overwrites. *)
Definition of_pairs (ps : list (string * V)) : dict :=
  fold_left (fun d kv => set (fst kv) (snd kv) d) ps [].
End Dict.
Arguments dict V : clear implicits.

(** *** [str(n)] for a non-negative [int] *)
Definition str (n : nat) : string := NilZero.string_of_uint (Nat.to_uint n).

Definition str_Z (z : Z) : string :=
  if (z <? 0)%Z then ("-" ++ str (Z.to_nat (- z)))%string
  else str (Z.to_nat z).

(** *** [int(s)] for a string: surrounding white space, an optional sign,
    then decimal digits, where single underscores may separate digits. *)
Definition is_space (c : ascii) : bool :=
  let n := nat_of_ascii c in
  (n =? 32) || ((9 <=? n) && (n <=? 13)) || ((28 <=? n) && (n <=? 31)).

Fixpoint lstrip (s : list ascii) : list ascii :=
  match s with
  | [] => []
  | c :: s' => if is_space c then lstrip s' else s
  end.

Definition strip (s : list ascii) : list ascii :=
  rev (lstrip (rev (lstrip s))).

Definition digit_val (c : ascii) : option Z :=
  let n := nat_of_ascii c in
  if (48 <=? n) && (n <=? 57) then Some (Z.of_nat (n - 48)) else None.

Fixpoint digits (acc : Z) (after_digit : bool) (s : list ascii) : option Z :=
  match s with
  | [] => if after_digit then Some acc else None
  | c :: s' =>
      match digit_val c with
      | Some d => digits (10 * acc + d)%Z true s'
      | None =>
          if Ascii.eqb c "_" && after_digit then digits acc false s' else None
      end
  end.

Definition int_literal (s : list ascii) : option Z :=
  match strip s with
  | "-"%char :: ds => option_map Z.opp (digits 0%Z false ds)
  | "+"%char :: ds => digits 0%Z false ds
  | ds => digits 0%Z false ds
  end.

Definition int (s : string) : Exc Z :=
  match int_literal (list_ascii_of_string s) with
  | Some z => Ok z
  | None =>
      Raise (ValueError
               ("invalid literal for int() with base 10: " ++ repr s)%string)
  end.

End Py.

Import Py.

Notation "x <- c ;; k" := (Py.bind c (fun x => k))
  (at level 61, c at next level, right associativity).
Notation "' p <- c ;; k" := (Py.bind c (fun p => k))
  (at level 61, p pattern, c at next level, right associativity).

(** [sorted(l, key=key, reverse=True)] with float keys.  [list.sort] is stable,
    also under [reverse=True]: equal keys keep the order of the input.  The
    result of a stable sort is determined by its input, so a stable insertion
    sort stands for CPython's merge sort. *)
Section SortedReverse.
Context {A : Type} (key : A -> R).

Fixpoint insert_reverse (x : A) (l : list A) : list A :=
  match l with
  | [] => [x]
  | y :: l' =>
      if Rlt_dec (key x) (key y) then y :: insert_reverse x l' else x :: l
  end.

Definition sorted_reverse (l : list A) : list A :=
  fold_right insert_reverse [] l.
End SortedReverse.

(** ** The parts of torch, torchvision and PIL that the predictor calls *)

Module Torch.

(** A decoded picture: rows of RGB pixels. *)
Inductive Image : Type :=
| RGB (rows : list (list (nat * nat * nat))).

(** The batched 1x3x128x256 tensor that [Resize((128, 256))], [ToTensor()] and
    [Normalize(mean, std)] make of a picture.  It is kept symbolic: the
    network is a function of it, and no property below depends on the pixel
    arithmetic. *)
Inductive Tensor : Type :=
| Transformed (img : Image).

(** [transforms.Compose([Resize, ToTensor, Normalize])] *)
Inductive Compose : Type :=
| Resize_ToTensor_Normalize.

Definition apply_transform (t : Compose) (img : Image) : Tensor :=
  match t with
  | Resize_ToTensor_Normalize => Transformed img
  end.

Local Open Scope R_scope.

Definition Rltb (x y : R) : bool := if Rlt_dec x y then true else false.

Fixpoint sum (row : list R) : R :=
  match row with
  | [] => 0
  | x :: row' => x + sum row'
  end.

Definition amax (x : R) (row : list R) : R := fold_left Rmax row x.

(** [softmax(outputs, dim=1)] on the single row of the batch: the
    exponentials of the scores shifted by their maximum, normalised. *)
Definition softmax (row : list R) : list R :=
  match row with
  | [] => []
  | x :: row' =>
      let m := amax x row' in
      let e := map (fun v => exp (v - m)) row in
      let s := sum e in
      map (fun v => v / s) e
  end.

(** [torch.max(probabilities, 1)]: the maximum of the row and its index.  Among
    several maximal values torch returns the index of the first, which a scan
    that replaces the best value only by a strictly larger one computes; an
    empty row cannot be reduced. *)
Fixpoint max_from (best : R) (best_idx i : nat) (row : list R) : R * nat :=
  match row with
  | [] => (best, best_idx)
  | x :: row' =>
      if Rltb best x then max_from x i (S i) row'
      else max_from best best_idx (S i) row'
  end.

Definition max (row : list R) : Exc (R * nat) :=
  match row with
  | [] =>
      Raise (IndexError
               "max(): Expected reduction dim 1 to have non-zero size.")
  | x :: row' => Ok (max_from x 0%nat 1%nat row')
  end.

(** [row[i].item()]: a negative index counts from the end. *)
Definition getitem (row : list R) (i : Z) : Exc R :=
  let n := Z.of_nat (List.length row) in
  if ((0 <=? i) && (i <? n))%Z then Ok (nth (Z.to_nat i) row 0)
  else if ((- n <=? i) && (i <? 0))%Z then Ok (nth (Z.to_nat (n + i)) row 0)
  else
    Raise (IndexError
             ("index " ++ str_Z i ++ " is out of bounds for dimension 0 with size "
              ++ str (List.length row))%string).

Definition relu (x : list R) : list R := map (Rmax 0) x.

(** [nn.Dropout(p)]: in training mode every activation is zeroed or scaled by
    [1 / (1 - p)] according to a random mask; in evaluation mode the layer is
    the identity.  [mask] stands for the draws of the random generator. *)
Fixpoint dropout_train (p : R) (mask : nat -> bool) (i : nat) (x : list R)
  : list R :=
  match x with
  | [] => []
  | v :: x' =>
      (if mask i then v / (1 - p) else 0) :: dropout_train p mask (S i) x'
  end.

Definition dropout (p : R) (training : bool) (mask : nat -> bool)
  (x : list R) : list R :=
  if training then dropout_train p mask 0%nat x else x.

(** The parameters stored in a checkpoint of the ResNet50 with the custom
    head: the backbone up to the pooled features, [fc.0] and [fc.3].  Each
    layer is the function its weights define; [fc_3_out_features] is the
    number of rows of [fc.3.weight]. *)
Record StateDict : Type := {
  backbone : Tensor -> list R;
  fc_0 : list R -> list R;
  fc_3_out_features : nat;
  fc_3 : nat -> list R -> R
}.

(** An [nn.Module] of the architecture of [_load_model] with loaded
    parameters: the head ends in [Linear(512, out_features)]. *)
Record Module : Type := {
  out_features : nat;
  params : StateDict;
  training : bool
}.

(** [model.load_state_dict(sd)] on a freshly built network with
    [num_classes] outputs: the shapes of [fc.3] must agree.  A new module is
    in training mode. *)
Definition load_state_dict (num_classes : nat) (sd : StateDict) : Exc Module :=
  if Nat.eqb (fc_3_out_features sd) num_classes then
    Ok {| out_features := num_classes; params := sd; training := true |}
  else
    Raise (RuntimeError
             "Error(s) in loading state_dict for ResNet: size mismatch for fc.3.weight").

(** [model.eval()] *)
Definition eval (m : Module) : Module :=
  {| out_features := out_features m; params := params m; training := false |}.

(** [model(x)]: backbone, then the head
    [Linear -> ReLU -> Dropout(0.5) -> Linear]; one row of [out_features]
    scores. *)
Definition forward (m : Module) (mask : nat -> bool) (x : Tensor) : list R :=
  let h := relu (fc_0 (params m) (backbone (params m) x)) in
  let h' := dropout (1 / 2) (training m) mask h in
  map (fun j => fc_3 (params m) j h') (seq 0 (out_features m)).

End Torch.

(** ** Files *)

Module Files.

(** A file, by what its readers make of it.  [Garbage] is content that none
    of [json.load], [torch.load] and [Image.open] accepts; [Garbage ""] is
    the zero-byte file.  The class-map artifact is a JSON object whose
    members are (index, label) pairs in the order of the text. *)
Inductive File : Type :=
| Absent
| Garbage (content : string)
| JsonObject (members : list (string * string))
| Checkpoint (sd : Torch.StateDict)
| Picture (img : Torch.Image).

Definition FileSystem : Type := string -> File.

Definition exists_ (fs : FileSystem) (path : string) : bool :=
  match fs path with
  | Absent => false
  | _ => true
  end.

Definition no_such_file (path : string) : PyExc :=
  FileNotFoundError ("[Errno 2] No such file or directory: " ++ repr path)%string.

(** [with open(path, 'r') as f: json.load(f)] *)
Definition json_load (fs : FileSystem) (path : string) : Exc (dict string) :=
  match fs path with
  | Absent => Raise (no_such_file path)
  | JsonObject members => Ok (of_pairs members)
  | _ => Raise (JSONDecodeError "Expecting value: line 1 column 1 (char 0)")
  end.

(** [torch.load(path, map_location=device)] *)
Definition torch_load (fs : FileSystem) (path : string) : Exc Torch.StateDict :=
  match fs path with
  | Absent => Raise (no_such_file path)
  | Checkpoint sd => Ok sd
  | _ => Raise (UnpicklingError "invalid load key")
  end.

(** [Image.open(path).convert('RGB')] *)
Definition image_open (fs : FileSystem) (path : string) : Exc Torch.Image :=
  match fs path with
  | Absent => Raise (no_such_file path)
  | Picture img => Ok img
  | _ => Raise (OSError ("cannot identify image file " ++ repr path)%string)
  end.

End Files.

(** ** [backend/dep.py] *)

Module Dep.
Import Torch Files.

(** The values stored in the dictionaries that [predict] returns. *)
Inductive PyVal : Type :=
| PyNone
| PyBool (b : bool)
| PyStr (s : string)
| PyFloat (x : R)
| PyDict (d : dict R).

(** The attributes of an [ElectricalComponentPredictor]. *)
Record ElectricalComponentPredictor : Type := {
  model_path : string;
  class_map_path : string;
  device : string;
  model : option Module;
  class_map : option (dict string);
  transform : option Compose
}.

Definition with_model (self : ElectricalComponentPredictor) (m : Module) :=
  {| model_path := model_path self; class_map_path := class_map_path self;
     device := device self; model := Some m; class_map := class_map self;
     transform := transform self |}.

Definition with_class_map (self : ElectricalComponentPredictor)
  (cm : dict string) :=
  {| model_path := model_path self; class_map_path := class_map_path self;
     device := device self; model := model self; class_map := Some cm;
     transform := transform self |}.

Definition with_transform (self : ElectricalComponentPredictor) (t : Compose) :=
  {| model_path := model_path self; class_map_path := class_map_path self;
     device := device self; model := model self; class_map := class_map self;
     transform := Some t |}.

(** [_load_model]: every exception is logged and raised again. *)
Definition _load_model (fs : FileSystem) (self : ElectricalComponentPredictor)
  : Exc ElectricalComponentPredictor :=
  if negb (exists_ fs (model_path self)) then
    Raise (FileNotFoundError
             ("Model file not found: " ++ model_path self)%string)
  else
    class_map <- json_load fs (class_map_path self) ;;
    let num_classes := len class_map in
    sd <- torch_load fs (model_path self) ;;
    model <- load_state_dict num_classes sd ;;
    Ok (with_model self (eval model)).

(** [_load_class_map] *)
Definition _load_class_map (fs : FileSystem)
  (self : ElectricalComponentPredictor) : Exc ElectricalComponentPredictor :=
  if negb (exists_ fs (class_map_path self)) then
    Raise (FileNotFoundError
             ("Class map file not found: " ++ class_map_path self)%string)
  else
    class_map <- json_load fs (class_map_path self) ;;
    Ok (with_class_map self class_map).

(** [_setup_transforms] *)
Definition _setup_transforms (self : ElectricalComponentPredictor)
  : ElectricalComponentPredictor :=
  with_transform self Resize_ToTensor_Normalize.

(** [__init__]; [cuda] is [torch.cuda.is_available()]. *)
Definition __init__ (fs : FileSystem) (cuda : bool)
  (model_path class_map_path : string) (device : option string)
  : Exc ElectricalComponentPredictor :=
  let default := if cuda then "cuda" else "cpu" in
  let self :=
    {| model_path := model_path; class_map_path := class_map_path;
       device := match device with
                 | Some d => if String.eqb d "" then default else d
                 | None => default
                 end;
       model := None; class_map := None; transform := None |} in
  self <- _load_model fs self ;;
  self <- _load_class_map fs self ;;
  Ok (_setup_transforms self).

(** [preprocess_image]: [None] on a missing file and on every exception. *)
Definition preprocess_image (fs : FileSystem)
  (self : ElectricalComponentPredictor) (image_path : string) : option Tensor :=
  if negb (exists_ fs image_path) then None
  else
    match
      (image <- image_open fs image_path ;;
       match transform self with
       | Some t => Ok (apply_transform t image)
       | None => Raise (TypeError "'NoneType' object is not callable")
       end)
    with
    | Ok image_tensor => Some image_tensor
    | Raise _ => None
    end.

(** The loop of [predict] that fills [prob_dist], on the items still to
    visit. *)
Fixpoint fill_prob_dist (probabilities : list R)
  (remaining : list (string * string)) (prob_dist : dict R) : Exc (dict R) :=
  match remaining with
  | [] => Ok prob_dist
  | (idx, class_name) :: remaining' =>
      i <- int idx ;;
      p <- getitem probabilities i ;;
      fill_prob_dist probabilities remaining' (set class_name p prob_dist)
  end.

Definition failure (error : string) : dict PyVal :=
  [ ("success", PyBool false);
    ("error", PyStr error);
    ("class_name", PyNone);
    ("confidence", PyFloat 0);
    ("probabilities", PyDict []) ].

(** The statements of [predict] after preprocessing, inside the [try]. *)
Definition predict_body (self : ElectricalComponentPredictor)
  (mask : nat -> bool) (image_tensor : Tensor) : Exc (dict PyVal) :=
  m <- match model self with
       | Some m => Ok m
       | None => Raise (TypeError "'NoneType' object is not callable")
       end ;;
  let outputs := forward m mask image_tensor in
  let probabilities := softmax outputs in
  ' (confidence, predicted_idx) <- Torch.max probabilities ;;
  cm <- match class_map self with
        | Some cm => Ok cm
        | None => Raise (TypeError "'NoneType' object is not subscriptable")
        end ;;
  predicted_class <- Py.getitem cm (str predicted_idx) ;;
  let confidence_score := confidence in
  prob_dist <- fill_prob_dist probabilities (items cm) [] ;;
  let sorted_probs := sorted_reverse snd (items prob_dist) in
  Ok [ ("success", PyBool true);
       ("class_name", PyStr predicted_class);
       ("confidence", PyFloat confidence_score);
       ("probabilities", PyDict (of_pairs (firstn 5 sorted_probs)));
       ("all_probabilities", PyDict prob_dist) ].

(** [predict]; [mask] stands for the state of the random generator that a
    dropout layer in training mode would consume. *)
Definition predict (fs : FileSystem) (self : ElectricalComponentPredictor)
  (mask : nat -> bool) (image_path : string) : dict PyVal :=
  match preprocess_image fs self image_path with
  | None => failure "Failed to preprocess image"
  | Some image_tensor =>
      match predict_body self mask image_tensor with
      | Ok result => result
      | Raise e => failure (str_exc e)
      end
  end.

(** The dictionary returned by [get_class_info]. *)
Record ClassInfo : Type := {
  num_classes : nat;
  classes : list string;
  class_mapping : dict string
}.

Definition get_class_info (self : ElectricalComponentPredictor)
  : Exc ClassInfo :=
  match class_map self with
  | Some cm =>
      Ok {| num_classes := len cm; classes := values cm; class_mapping := cm |}
  | None => Raise (TypeError "object of type 'NoneType' has no len()")
  end.

(** [create_predictor]; [here] is [os.path.dirname(__file__)]. *)
Definition create_predictor (fs : FileSystem) (cuda : bool) (here : string)
  (model_path class_map_path : option string)
  : Exc ElectricalComponentPredictor :=
  let model_path :=
    match model_path with
    | Some p => p
    | None => (here ++ "/../model/electrical_component_classifier.pth")%string
    end in
  let class_map_path :=
    match class_map_path with
    | Some p => p
    | None => (here ++ "/../model/class_map.json")%string
    end in
  __init__ fs cuda model_path class_map_path None.

End Dep.

(** ** [backend/app.py]: the lazy singleton [get_predictor]

    The Flask server runs with [threaded=True], so several request threads can
    be inside [get_predictor] at once; CPython may switch threads between any
    two of the steps below (the test of the global, the call of
    [create_predictor], the assignment of the global, the [return]). *)

Module App.
Import Files Dep.

(** What [create_predictor()] depends on. *)
Record Env : Type := {
  fs : FileSystem;
  cuda : bool;
  here : string
}.

(** [get_predictor] run without interruption, as a function of the global
    [predictor]: what the call returns or raises, and the global afterwards. *)
Definition get_predictor (env : Env)
  (predictor : option ElectricalComponentPredictor)
  : Exc ElectricalComponentPredictor * option ElectricalComponentPredictor :=
  match predictor with
  | None =>
      match create_predictor (fs env) (cuda env) (here env) None None with
      | Ok p => (Ok p, Some p)
      | Raise e => (Raise e, None)
      end
  | Some p => (Ok p, Some p)
  end.

(** Where a thread is inside [get_predictor]. *)
Inductive Pc : Type :=
| Called                                      (* before [if predictor is None] *)
| Creating                                    (* before [create_predictor()] *)
| Storing (p : ElectricalComponentPredictor)  (* before [predictor = ...] *)
| Returning                                   (* before [return predictor] *)
| Returned (p : option ElectricalComponentPredictor)
| Raised (e : PyExc).

(** The module-level [predictor], the number of calls of [create_predictor]
    made so far, and the threads. *)
Record State : Type := {
  predictor : option ElectricalComponentPredictor;
  loads : nat;
  threads : list Pc
}.

Definition init (n : nat) : State :=
  {| predictor := None; loads := 0; threads := repeat Called n |}.

Fixpoint update (t : nat) (pc : Pc) (l : list Pc) : list Pc :=
  match l, t with
  | [], _ => []
  | _ :: l', O => pc :: l'
  | x :: l', S t' => x :: update t' pc l'
  end.

(** The move of thread [t] from the place [pc]. *)
Definition move (env : Env) (s : State) (t : nat) (pc : Pc) : State :=
  match pc with
  | Called =>
      match predictor s with
      | None =>
          {| predictor := predictor s; loads := loads s;
             threads := update t Creating (threads s) |}
      | Some _ =>
          {| predictor := predictor s; loads := loads s;
             threads := update t Returning (threads s) |}
      end
  | Creating =>
      match create_predictor (fs env) (cuda env) (here env) None None with
      | Ok p =>
          {| predictor := predictor s; loads := S (loads s);
             threads := update t (Storing p) (threads s) |}
      | Raise e =>
          {| predictor := predictor s; loads := S (loads s);
             threads := update t (Raised e) (threads s) |}
      end
  | Storing p =>
      {| predictor := Some p; loads := loads s;
         threads := update t Returning (threads s) |}
  | Returning =>
      {| predictor := predictor s; loads := loads s;
         threads := update t (Returned (predictor s)) (threads s) |}
  | Returned _ | Raised _ => s
  end.

(** One step of thread [t]. *)
Definition step (env : Env) (s : State) (t : nat) : State :=
  match nth_error (threads s) t with
  | None => s
  | Some pc => move env s t pc
  end.

(** A schedule names the thread that moves at each step. *)
Definition run (env : Env) (schedule : list nat) (s : State) : State :=
  fold_left (step env) schedule s.

Definition passed_check (pc : Pc) : bool :=
  match pc with
  | Called => false
  | _ => true
  end.

Definition creating (pc : Pc) : bool :=
  match pc with
  | Creating => true
  | _ => false
  end.

Definition count (f : Pc -> bool) (l : list Pc) : nat :=
  List.length (filter f l).

(** [p] is what [create_predictor()] returns in this environment. *)
Definition created (env : Env) (p : ElectricalComponentPredictor) : Prop :=
  create_predictor (fs env) (cuda env) (here env) None None = Ok p.

(** What holds of a thread at each place, given the global [g]: the value it
    is about to store was built by [create_predictor]; it only reaches the
    [return] once the global is set; it returns a built predictor. *)
Definition pc_ok (env : Env) (g : option ElectricalComponentPredictor)
  (pc : Pc) : Prop :=
  match pc with
  | Storing p => created env p
  | Returning => g <> None
  | Returned r => exists p, r = Some p /\ created env p
  | Called | Creating | Raised _ => True
  end.

(** The global is unset or a built predictor, and every thread is in order. *)
Definition well_built (env : Env) (s : State) : Prop :=
  (forall p, predictor s = Some p -> created env p) /\
  (forall t pc, nth_error (threads s) t = Some pc -> pc_ok env (predictor s) pc).

(** The schedule in which all callers test the global, then all load. *)
Definition all_test_then_load (n : nat) : list nat := seq 0 n ++ seq 0 n.

(** The schedule in which the calls do not overlap: each thread makes its
    four steps before the next one starts. *)
Definition one_after_another (n : nat) : list nat :=
  flat_map (fun t => [t; t; t; t]) (seq 0 n).

End App.

(** ** Orders and shapes as the specification words them *)

Module Spec.
Import Torch Dep.

(** "labels ordered by ascending class index". *)
Definition labels_ascending (cm : dict string) : list (option string) :=
  map (fun i => get (str i) cm) (seq 0 (len cm)).

(** The pairs (label, probability) by ascending class index. *)
Definition indexed_probabilities (cm : dict string) (probabilities : list R)
  : list (string * R) :=
  flat_map (fun i => match get (str i) cm with
                     | Some label => [(label, nth i probabilities 0%R)]
                     | None => []
                     end)
           (seq 0 (len cm)).

(** "the first min(5, N) entries when all_probabilities is sorted by
    probability descending, with ties broken by ascending original index". *)
Definition top_k (cm : dict string) (probabilities : list R)
  : list (string * R) :=
  firstn (Nat.min 5 (len cm))
         (sorted_reverse snd (indexed_probabilities cm probabilities)).


End Spec.

(** ** Vocabulary for the statements about the code *)

Module Props.
Import Torch Dep.

(** The probability row that a prediction ranks: the softmax of the scores
    of the network on the preprocessed image. *)
Definition probabilities_of (fs : Files.FileSystem)
  (self : ElectricalComponentPredictor) (mask : nat -> bool)
  (image_path : string) : option (list R) :=
  match preprocess_image fs self image_path, model self with
  | Some x, Some m => Some (softmax (forward m mask x))
  | _, _ => None
  end.

Definition succeeded (result : dict PyVal) : Prop :=
  get "success" result = Some (PyBool true).

(** The entries of a ranking whose probability is [p]. *)
Definition with_probability (p : R) (entries : list (string * R))
  : list (string * R) :=
  filter (fun e => if Req_dec_T (snd e) p then true else false) entries.




(** The attributes of a predictor that [__init__] has returned. *)
Definition initialized (self : ElectricalComponentPredictor) : Prop :=
  exists (m : Module) (cm : dict string),
    model self = Some m /\ class_map self = Some cm /\
    transform self = Some Resize_ToTensor_Normalize /\
    training m = false /\ out_features m = len cm /\ NoDup (keys cm).

(** Sorted by probability, descending. *)
Definition descending (entries : list (string * R)) : Prop :=
  StronglySorted (fun a b => (snd b <= snd a)%R) entries.

End Props.

(** ** Concrete artifacts *)

Module Examples.
Import Torch Files Dep.

(** A checkpoint whose head scores every class 0. *)
Definition flat_checkpoint (n : nat) : StateDict :=
  {| backbone := fun _ => []; fc_0 := fun _ => [];
     fc_3_out_features := n; fc_3 := fun _ _ => 0%R |}.

(** A checkpoint with two outputs that scores class 0 higher than class 1. *)
Definition tilted_checkpoint : StateDict :=
  {| backbone := fun _ => []; fc_0 := fun _ => [];
     fc_3_out_features := 2;
     fc_3 := fun j _ => if Nat.eqb j 0 then 1%R else 0%R |}.

(** A model directory with the given checkpoint and class map, a picture, a
    zero-byte upload and an upload that is not an image. *)
Definition disk_with (sd : StateDict) (members : list (string * string))
  : FileSystem :=
  fun path =>
    if String.eqb path "backend/../model/electrical_component_classifier.pth"
    then Checkpoint sd
    else if String.eqb path "backend/../model/class_map.json"
    then JsonObject members
    else if String.eqb path "uploads/photo.png" then Picture (RGB [])
    else if String.eqb path "uploads/empty.png" then Garbage ""
    else if String.eqb path "uploads/notes.png" then Garbage "plain text"
    else Absent.

Definition disk (n : nat) (members : list (string * string)) : FileSystem :=
  disk_with (flat_checkpoint n) members.

Definition new_predictor (n : nat) (members : list (string * string)) :=
  __init__ (disk n members) false
    "backend/../model/electrical_component_classifier.pth"
    "backend/../model/class_map.json" None.

(** The predictor that [__init__] returns over [disk_with] when the sizes
    agree. *)
Definition loaded_with (sd : StateDict) (members : list (string * string))
  : ElectricalComponentPredictor :=
  {| model_path := "backend/../model/electrical_component_classifier.pth";
     class_map_path := "backend/../model/class_map.json";
     device := "cpu";
     model := Some {| out_features := len (of_pairs members);
                      params := sd; training := false |};
     class_map := Some (of_pairs members);
     transform := Some Resize_ToTensor_Normalize |}.

Definition loaded (n : nat) (members : list (string * string))
  : ElectricalComponentPredictor :=
  loaded_with (flat_checkpoint n) members.

Definition three_classes : list (string * string) :=
  [("0", "resistor"); ("1", "capacitor"); ("2", "inductor")].

Definition gap_classes : list (string * string) :=
  [("0", "resistor"); ("2", "capacitor")].

Definition swapped_classes : list (string * string) :=
  [("1", "capacitor"); ("0", "resistor")].

Definition same_label_classes : list (string * string) :=
  [("0", "resistor"); ("1", "resistor")].

Definition same_index_classes : list (string * string) :=
  [("0", "resistor"); ("00", "capacitor")].

(** A checkpoint with one output, the sum of the activations that leave the
    dropout layer, and a network built on it that is still in training mode. *)
Definition summing_checkpoint : StateDict :=
  {| backbone := fun _ => [1%R]; fc_0 := fun h => h;
     fc_3_out_features := 1; fc_3 := fun _ h => sum h |}.

Definition training_module : Module :=
  {| out_features := 1; params := summing_checkpoint; training := true |}.

(** The server started in [backend/] over the three-class artifacts. *)
Definition server : App.Env :=
  {| App.fs := disk 3 three_classes; App.cuda := false; App.here := "backend" |}.

Definition no_mask : nat -> bool := fun _ => true.
Definition drop_all : nat -> bool := fun _ => false.

End Examples.

(** ** Python string and path functions that [backend/app.py] calls

    A [str] is a string of bytes; [lower] changes the letters A to Z only.
    For the tests below against [ALLOWED_EXTENSIONS], whose members are ASCII
    and hold no letter k, that agrees with Python's Unicode [lower]. *)

Module Str.

(** [c in s] for a single character. *)
Fixpoint contains (c : ascii) (s : string) : bool :=
  match s with
  | EmptyString => false
  | String c' s' => Ascii.eqb c c' || contains c s'
  end.

Definition lower_char (c : ascii) : ascii :=
  let n := nat_of_ascii c in
  if (65 <=? n) && (n <=? 90) then ascii_of_nat (n + 32) else c.

(** [s.lower()] *)
Fixpoint lower (s : string) : string :=
  match s with
  | EmptyString => EmptyString
  | String c s' => String (lower_char c) (lower s')
  end.

(** The parts of [s] before and after the last [sep], when there is one. *)
Fixpoint split_last (sep : ascii) (s : string) : option (string * string) :=
  match s with
  | EmptyString => None
  | String c s' =>
      match split_last sep s' with
      | Some (before, after) => Some (String c before, after)
      | None => if Ascii.eqb c sep then Some (EmptyString, s') else None
      end
  end.

(** [s.rsplit(sep, 1)] for a separator of one character. *)
Definition rsplit1 (sep : ascii) (s : string) : list string :=
  match split_last sep s with
  | Some (before, after) => [before; after]
  | None => [s]
  end.

(** [l[i]] on a list. *)
Definition item {A : Type} (l : list A) (i : nat) : Exc A :=
  match nth_error l i with
  | Some a => Ok a
  | None => Raise (IndexError "list index out of range")
  end.

(** [sep.join(l)] *)
Fixpoint join (sep : string) (l : list string) : string :=
  match l with
  | [] => EmptyString
  | [s] => s
  | s :: l' => (s ++ sep ++ join sep l')%string
  end.

(** [s.startswith(c)] and [s.endswith(c)] for a single character. *)
Definition startswith (c : ascii) (s : string) : bool :=
  match s with
  | String c' _ => Ascii.eqb c c'
  | EmptyString => false
  end.

Fixpoint endswith (c : ascii) (s : string) : bool :=
  match s with
  | EmptyString => false
  | String c' EmptyString => Ascii.eqb c c'
  | String _ s' => endswith c s'
  end.

(** [os.path.join(a, b)] on POSIX. *)
Definition path_join (a b : string) : string :=
  if startswith "/" b then b
  else if String.eqb a "" || endswith "/" a then (a ++ b)%string
  else (a ++ "/" ++ b)%string.

(** [s] without the prefix [p], when it starts with it. *)
Fixpoint strip_prefix (p s : string) : option string :=
  match p, s with
  | EmptyString, _ => Some s
  | String c p', String c' s' =>
      if Ascii.eqb c c' then strip_prefix p' s' else None
  | String _ _, EmptyString => None
  end.

(** [str(u)] for a [uuid.UUID] with integer value [v]: the 32 lower-case
    hexadecimal digits of [v] in groups of 8, 4, 4, 4 and 12. *)
Definition hex_char (d : nat) : ascii :=
  nth d (list_ascii_of_string "0123456789abcdef") "0"%char.

Definition hex32 (v : N) : list ascii :=
  map (fun i => hex_char (N.to_nat ((v / 16 ^ N.of_nat (31 - i)) mod 16)%N))
      (seq 0 32).

Definition str_uuid (v : N) : string :=
  let h := hex32 v in
  string_of_list_ascii
    (firstn 8 h ++ "-"%char :: firstn 4 (skipn 8 h) ++
     "-"%char :: firstn 4 (skipn 12 h) ++
     "-"%char :: firstn 4 (skipn 16 h) ++ "-"%char :: skipn 20 h).

End Str.

(** ** [backend/app.py]: uploads, clean-up and the routes *)

Module Web.
Import Torch Files Dep Str.

Definition MAX_CONTENT_LENGTH : N := (16 * 1024 * 1024)%N.

(** [ALLOWED_EXTENSIONS]; a set, written in the order of the source text. *)
Definition ALLOWED_EXTENSIONS : list string :=
  ["png"; "jpg"; "jpeg"; "gif"; "bmp"; "tiff"; "webp"].

(** [x in ALLOWED_EXTENSIONS] *)
Definition in_allowed (x : string) : bool :=
  existsb (String.eqb x) ALLOWED_EXTENSIONS.

(** [allowed_file]: [and] evaluates the [rsplit] only when there is a dot. *)
Definition allowed_file (filename : string) : Exc bool :=
  if contains "." filename then
    ext <- item (rsplit1 "." filename) 1 ;;
    Ok (in_allowed (lower ext))
  else Ok false.

(** The upload folder: the files in it by name, each with its modification
    time in seconds and its content. *)
Definition Folder : Type := dict (R * File).

(** [os.remove] of a name in the folder. *)
Fixpoint delete (name : string) (folder : Folder) : Folder :=
  match folder with
  | [] => []
  | (n, f) :: folder' =>
      if String.eqb name n then folder' else (n, f) :: delete name folder'
  end.

Definition os_remove (name : string) (folder : Folder) : Exc Folder :=
  match get name folder with
  | Some _ => Ok (delete name folder)
  | None =>
      Raise (FileNotFoundError
               ("[Errno 2] No such file or directory: " ++ repr name)%string)
  end.

(** [cleanup_old_files] at the time [current_time]: every file of the folder
    whose age is more than 3600 seconds is removed. *)
Definition cleanup_old_files (current_time : R) (folder : Folder) : Folder :=
  filter (fun entry =>
            let file_age := (current_time - fst (snd entry))%R in
            if Rlt_dec 3600 file_age then false else true)
         folder.

(** [UPLOAD_FOLDER], given [os.path.dirname(__file__)]. *)
Definition UPLOAD_FOLDER (here : string) : string :=
  path_join (path_join here "static") "uploads".

(** The file system that the predictor reads: the upload folder over the
    rest of the disk. *)
Definition disk_view (here : string) (rest : FileSystem) (folder : Folder)
  : FileSystem :=
  fun path =>
    match strip_prefix (UPLOAD_FOLDER here ++ "/") path with
    | Some name =>
        match get name folder with
        | Some (_, content) => content
        | None => Absent
        end
    | None => rest path
    end.

(** A file of a multipart request. *)
Record FileStorage : Type := {
  filename : string;
  content : File
}.

(** A request: its declared length and the part named [file], if any. *)
Record Request : Type := {
  content_length : N;
  file_part : option FileStorage
}.

(** What a handler can raise: werkzeug's [RequestEntityTooLarge], or another
    exception. *)
Inductive Failure : Type :=
| RequestEntityTooLarge
| Other (e : PyExc).

(** [request.files]: parsing the form refuses a body longer than
    [MAX_CONTENT_LENGTH]. *)
Definition request_files (req : Request) : Failure + option FileStorage :=
  if (MAX_CONTENT_LENGTH <? content_length req)%N then inl RequestEntityTooLarge
  else inr (file_part req).

(** What one request takes from its surroundings: the disk outside the upload
    folder, the module directory, the device probe, the value drawn by
    [uuid.uuid4()], the clock when the upload is written and when the clean-up
    runs, the state of the random generator, the order in which the set
    [ALLOWED_EXTENSIONS] iterates, and werkzeug's [secure_filename]. *)
Record Ambient : Type := {
  rest : FileSystem;
  here : string;
  cuda : bool;
  uuid4 : N;
  saved_at : R;
  now : R;
  mask : nat -> bool;
  set_order : list string;
  secure_filename : string -> string
}.

(** The state that outlives a request: the module-level [predictor] and the
    upload folder. *)
Record Server : Type := {
  predictor : option ElectricalComponentPredictor;
  folder : Folder
}.

Record Response : Type := {
  status : nat;
  body : dict PyVal
}.

Definition error_body (message : string) : dict PyVal :=
  [("success", PyBool false); ("error", PyStr message)].

Definition env_of (w : Ambient) (folder : Folder) : App.Env :=
  {| App.fs := disk_view (here w) (rest w) folder;
     App.cuda := cuda w; App.here := here w |}.

(** The statements of the [/predict] handler inside its [try]. *)
Definition predict_body (w : Ambient) (srv : Server) (req : Request)
  : (Failure + Response) * Server :=
  match request_files req with
  | inl failure => (inl failure, srv)
  | inr None =>
      (inr {| status := 400; body := error_body "No file uploaded" |}, srv)
  | inr (Some file) =>
      if String.eqb (filename file) "" then
        (inr {| status := 400; body := error_body "No file selected" |}, srv)
      else
        match allowed_file (filename file) with
        | Raise e => (inl (Other e), srv)
        | Ok false =>
            (inr {| status := 400;
                    body := error_body
                              ("Invalid file type. Allowed types: "
                               ++ join ", " (set_order w))%string |}, srv)
        | Ok true =>
            match item (rsplit1 "." (filename file)) 1 with
            | Raise e => (inl (Other e), srv)
            | Ok ext =>
                let file_extension := lower ext in
                let unique_filename :=
                  (str_uuid (uuid4 w) ++ "." ++ file_extension)%string in
                let file_path :=
                  path_join (UPLOAD_FOLDER (here w)) unique_filename in
                (* file.save(file_path) *)
                let saved :=
                  set unique_filename (saved_at w, content file) (folder srv) in
                let cleaned := cleanup_old_files (now w) saved in
                match App.get_predictor (env_of w cleaned) (predictor srv) with
                | (Raise e, global) =>
                    (inl (Other e),
                     {| predictor := global; folder := cleaned |})
                | (Ok p, global) =>
                    let result :=
                      predict (disk_view (here w) (rest w) cleaned) p (mask w)
                        file_path in
                    let result := set "filename" (PyStr unique_filename) result in
                    let result :=
                      set "original_filename"
                        (PyStr (secure_filename w (filename file))) result in
                    let removed :=
                      match os_remove unique_filename cleaned with
                      | Ok folder' => folder'
                      | Raise _ => cleaned
                      end in
                    (inr {| status := 200; body := result |},
                     {| predictor := global; folder := removed |})
                end
            end
        end
  end.

(** The [/predict] handler with its two [except] clauses. *)
Definition predict_route (w : Ambient) (srv : Server) (req : Request)
  : Response * Server :=
  match predict_body w srv req with
  | (inr response, srv') => (response, srv')
  | (inl RequestEntityTooLarge, srv') =>
      ({| status := 413;
          body := error_body "File too large. Maximum size is 16MB." |}, srv')
  | (inl (Other _), srv') =>
      ({| status := 500;
          body := error_body "Internal server error. Please try again." |}, srv')
  end.

(** The answers of [/health]. *)
Inductive HealthBody : Type :=
| Healthy (model_loaded : bool) (num_classes : nat) (timestamp : string)
| Unhealthy (error : string) (timestamp : string).

(** The [/health] handler; [timestamp] is [datetime.now().isoformat()]. *)
Definition health (env : App.Env) (timestamp : string)
  (global : option ElectricalComponentPredictor)
  : (nat * HealthBody) * option ElectricalComponentPredictor :=
  match App.get_predictor env global with
  | (Ok p, global') =>
      match get_class_info p with
      | Ok class_info =>
          ((200, Healthy true (Dep.num_classes class_info) timestamp), global')
      | Raise e => ((500, Unhealthy (str_exc e) timestamp), global')
      end
  | (Raise e, global') => ((500, Unhealthy (str_exc e) timestamp), global')
  end.

(** The answers of [/classes]. *)
Inductive ClassesBody : Type :=
| Classes (num_classes : nat) (classes : list string)
    (class_mapping : dict string)
| ClassesError (error : string).

(** The [/classes] handler. *)
Definition get_classes (env : App.Env)
  (global : option ElectricalComponentPredictor)
  : (nat * ClassesBody) * option ElectricalComponentPredictor :=
  match App.get_predictor env global with
  | (Ok p, global') =>
      match get_class_info p with
      | Ok class_info =>
          ((200, Classes (Dep.num_classes class_info) (Dep.classes class_info)
                   (Dep.class_mapping class_info)), global')
      | Raise e => ((500, ClassesError (str_exc e)), global')
      end
  | (Raise e, global') => ((500, ClassesError (str_exc e)), global')
  end.

End Web.

(** ** Further vocabulary for statements about the code *)

Module Usage.
Import Torch Files Dep Str Web.



(** The name under which a request stores its upload. *)
Definition stored_name (w : Ambient) (ext : string) : string :=
  (str_uuid (uuid4 w) ++ "." ++ ext)%string.

(** The request passes the checks of the [/predict] handler. *)
Definition acceptable (req : Request) : Prop :=
  (content_length req <= MAX_CONTENT_LENGTH)%N /\
  exists file, file_part req = Some file /\ filename file <> "" /\
               allowed_file (filename file) = Ok true.

(** The request is refused for what it carries. *)
Definition malformed (req : Request) : Prop :=
  (content_length req <= MAX_CONTENT_LENGTH)%N /\
  (file_part req = None \/
   exists file, file_part req = Some file /\
                (filename file = "" \/ allowed_file (filename file) = Ok false)).

(** The module directory's files as [create_predictor] sees them on the disk
    outside the upload folder. *)
Definition loads_on (w : Ambient) : Exc ElectricalComponentPredictor :=
  create_predictor (rest w) (cuda w) (here w) None None.

(** The path at which a request stores its upload. *)
Definition stored_path_of (w : Ambient) (ext : string) : string :=
  (UPLOAD_FOLDER (here w) ++ "/" ++ stored_name w ext)%string.


End Usage.

(** ** Concrete requests *)

Module WebExamples.
Import Torch Files Dep Str Web Examples.

(** The surroundings of a request on the server of [Examples.server]; the
    upload is written at second 100 and the clean-up runs at second 101. *)
Definition world : Ambient :=
  {| rest := disk 3 three_classes; here := "backend"; cuda := false;
     uuid4 := 42%N; saved_at := 100%R; now := 101%R; mask := no_mask;
     set_order := ALLOWED_EXTENSIONS; secure_filename := fun s => s |}.

(** A picture uploaded as [board.PNG]. *)
Definition photo_request : Request :=
  {| content_length := 1000%N;
     file_part := Some {| filename := "board.PNG";
                          content := Picture (RGB []) |} |}.

(** A server that has not loaded its predictor and holds one earlier upload. *)
Definition idle : Server :=
  {| predictor := None; folder := [("earlier.jpg", (50%R, Garbage ""))] |}.



End WebExamples.

(* ================================================================== *)
(** * Part II: properties *)
(* ================================================================== *)

(** ** Dictionaries *)

Section DictFacts.
Context {V : Type}.
Implicit Types (d : dict V) (k : string) (v : V).

Lemma get_set_same d k v : get k (set k v d) = Some v.
Proof.
  induction d as [|[k' v'] d IH]; simpl.
  - now rewrite String.eqb_refl.
  - destruct (String.eqb k k') eqn:E; simpl; rewrite E; auto.
Qed.

Lemma get_set_other d k k' v : k' <> k -> get k' (set k v d) = get k' d.
Proof.
  intros Hne. induction d as [|[k0 v0] d IH]; simpl.
  - apply String.eqb_neq in Hne. now rewrite Hne.
  - destruct (String.eqb k k0) eqn:E; simpl.
    + apply String.eqb_eq in E. subst k0.
      apply String.eqb_neq in Hne. now rewrite Hne.
    + now rewrite IH.
Qed.

Lemma get_None_iff d k : get k d = None <-> ~ In k (keys d).
Proof.
  induction d as [|[k' v'] d IH]; simpl.
  - tauto.
  - destruct (String.eqb k k') eqn:E.
    + apply String.eqb_eq in E. subst. split; [discriminate | tauto].
    + apply String.eqb_neq in E. rewrite IH. split.
      * intros H [H1 | H1]; [congruence | tauto].
      * tauto.
Qed.

Lemma set_fresh d k v : ~ In k (keys d) -> set k v d = d ++ [(k, v)].
Proof.
  induction d as [|[k' v'] d IH]; simpl; intros Hn.
  - reflexivity.
  - destruct (String.eqb k k') eqn:E.
    + apply String.eqb_eq in E. subst. tauto.
    + rewrite IH by tauto. reflexivity.
Qed.

Lemma keys_set_present d k v : In k (keys d) -> keys (set k v d) = keys d.
Proof.
  induction d as [|[k' v'] d IH]; simpl; intros Hin.
  - contradiction.
  - destruct (String.eqb k k') eqn:E; simpl.
    + reflexivity.
    + apply String.eqb_neq in E. f_equal. apply IH.
      destruct Hin; [congruence | assumption].
Qed.

Lemma in_keys_set d k v k' : In k' (keys (set k v d)) <-> k' = k \/ In k' (keys d).
Proof.
  destruct (in_dec string_dec k (keys d)) as [Hin | Hn].
  - rewrite keys_set_present by assumption.
    split; [tauto | intros [-> | H]; assumption].
  - rewrite set_fresh by assumption. unfold keys. rewrite map_app, in_app_iff.
    simpl. split; [intros [H | [H | []]]; auto | intros [H | H]; auto].
Qed.

Lemma NoDup_keys_set d k v : NoDup (keys d) -> NoDup (keys (set k v d)).
Proof.
  intros Hd. destruct (in_dec string_dec k (keys d)) as [Hin | Hn].
  - now rewrite keys_set_present.
  - rewrite set_fresh by assumption. unfold keys in *. rewrite map_app. simpl.
    apply NoDup_rev in Hd. apply (NoDup_cons k) in Hd.
    + apply NoDup_rev in Hd. simpl in Hd. now rewrite rev_involutive in Hd.
    + now rewrite <- in_rev.
Qed.

Lemma of_pairs_from (ps : list (string * V)) (d : dict V) :
  NoDup (keys d) ->
  NoDup (keys (fold_left (fun d kv => set (fst kv) (snd kv) d) ps d)).
Proof.
  revert d. induction ps as [|[k v] ps IH]; simpl; intros d Hd.
  - assumption.
  - apply IH, NoDup_keys_set, Hd.
Qed.

Lemma NoDup_keys_of_pairs (ps : list (string * V)) : NoDup (keys (of_pairs ps)).
Proof. apply of_pairs_from. constructor. Qed.

Lemma fold_set_fresh (ps : list (string * V)) (d : dict V) :
  NoDup (keys d ++ map fst ps) ->
  fold_left (fun d kv => set (fst kv) (snd kv) d) ps d = d ++ ps.
Proof.
  revert d. induction ps as [|[k v] ps IH]; simpl; intros d Hd.
  - now rewrite app_nil_r.
  - assert (Hk : ~ In k (keys d)).
    { apply NoDup_remove_2 in Hd. intros Hin. apply Hd, in_or_app. now left. }
    rewrite set_fresh by assumption. rewrite IH.
    + now rewrite <- app_assoc.
    + unfold keys in *. rewrite map_app. simpl. now rewrite <- app_assoc.
Qed.

(** A JSON object without repeated names loads as it is written. *)
Lemma of_pairs_NoDup (ps : list (string * V)) :
  NoDup (map fst ps) -> of_pairs ps = ps.
Proof. intros H. unfold of_pairs. now rewrite fold_set_fresh. Qed.

End DictFacts.

Lemma repr_nonempty (s : string) : repr s <> "".
Proof. unfold repr. simpl. discriminate. Qed.

(** ** [int(str(n))] is [n] *)

Section DecimalFacts.
Local Abbreviation chars u := (list_ascii_of_string (NilEmpty.string_of_uint u)).

Lemma lstrip_id (l : list ascii) :
  (forall c, In c l -> is_space c = false) -> lstrip l = l.
Proof.
  destruct l as [|c l]; simpl; intros H; [reflexivity |].
  now rewrite (H c) by auto.
Qed.

Lemma strip_id (l : list ascii) :
  (forall c, In c l -> is_space c = false) -> strip l = l.
Proof.
  intros H. unfold strip. rewrite (lstrip_id l H), lstrip_id.
  - apply rev_involutive.
  - intros c Hc. apply H. now apply in_rev.
Qed.

Lemma chars_not_space (u : Decimal.uint) (c : ascii) :
  In c (chars u) -> is_space c = false.
Proof.
  induction u; simpl; try tauto; intros [<- | H]; auto.
Qed.

Lemma digits_chars (u : Decimal.uint) :
  forall (acc : Z) (b : bool),
    (0 <= acc)%Z -> u <> Decimal.Nil \/ b = true ->
    digits acc b (chars u) =
      Some (Z.of_nat (Nat.of_uint_acc u (Z.to_nat acc))).
Proof.
  induction u; intros acc b Hacc Hb;
    try (cbn [NilEmpty.string_of_uint list_ascii_of_string digits];
         match goal with
         | |- context [digit_val ?c] =>
             let v := eval vm_compute in (digit_val c) in
             change (digit_val c) with v
         end;
         cbv iota beta; rewrite IHu by (auto; lia);
         cbn [Nat.of_uint_acc]; rewrite Nat.tail_mul_spec;
         do 3 f_equal; lia).
  simpl. destruct Hb as [Hb | ->]; [congruence |].
  now rewrite Z2Nat.id.
Qed.

Lemma int_literal_chars (u : Decimal.uint) :
  u <> Decimal.Nil ->
  int_literal (chars u) = Some (Z.of_nat (Nat.of_uint u)).
Proof.
  intros Hu. unfold int_literal.
  rewrite strip_id by apply chars_not_space.
  transitivity (digits 0 false (chars u)).
  - destruct u; try congruence; reflexivity.
  - rewrite digits_chars by (auto; lia). reflexivity.
Qed.

(** The decimal text of an index parses back to the index. *)
Lemma int_str (n : nat) : Py.int (str n) = Ok (Z.of_nat n).
Proof.
  unfold Py.int, str, NilZero.string_of_uint.
  pose proof (DecimalNat.Unsigned.of_to n) as Hn.
  destruct (Nat.to_uint n) eqn:E;
    try (rewrite int_literal_chars by discriminate; now rewrite Hn).
  simpl in Hn. subst n. reflexivity.
Qed.
End DecimalFacts.

(** ** [sorted(..., reverse=True)] *)

Section SortedReverseFacts.
Context {A : Type} (key : A -> R).
Local Abbreviation ge_key := (fun a b => (key b <= key a)%R).
Local Abbreviation keyed p := (fun e => if Req_dec_T (key e) p then true else false).

Lemma insert_reverse_perm (x : A) (l : list A) :
  Permutation (insert_reverse key x l) (x :: l).
Proof.
  induction l as [|y l IH]; simpl.
  - apply Permutation_refl.
  - destruct (Rlt_dec (key x) (key y)).
    + rewrite IH. apply perm_swap.
    + apply Permutation_refl.
Qed.

Lemma sorted_reverse_perm (l : list A) : Permutation (sorted_reverse key l) l.
Proof.
  induction l as [|x l IH]; simpl.
  - constructor.
  - rewrite insert_reverse_perm. now constructor.
Qed.

Lemma sorted_reverse_length (l : list A) :
  List.length (sorted_reverse key l) = List.length l.
Proof. apply Permutation_length, sorted_reverse_perm. Qed.

Lemma insert_reverse_sorted (x : A) (l : list A) :
  StronglySorted ge_key l -> StronglySorted ge_key (insert_reverse key x l).
Proof.
  induction l as [|y l IH]; simpl; intros Hs.
  - constructor; constructor.
  - inversion Hs as [|? ? Hs' Hall]; subst.
    destruct (Rlt_dec (key x) (key y)) as [Hlt | Hge].
    + constructor.
      * now apply IH.
      * eapply Permutation_Forall.
        -- apply Permutation_sym, insert_reverse_perm.
        -- constructor; [lra | assumption].
    + constructor; [assumption |].
      constructor; [lra |].
      eapply Forall_impl; [| exact Hall]. simpl. intros a Ha. lra.
Qed.

Lemma sorted_reverse_sorted (l : list A) :
  StronglySorted ge_key (sorted_reverse key l).
Proof.
  induction l as [|x l IH]; simpl.
  - constructor.
  - now apply insert_reverse_sorted.
Qed.

(** Stability: the entries with a given key come out in the order in which
    they went in. *)
Lemma insert_reverse_stable (p : R) (x : A) (l : list A) :
  filter (keyed p) (insert_reverse key x l) = filter (keyed p) (x :: l).
Proof.
  induction l as [|y l IH]; simpl.
  - reflexivity.
  - destruct (Rlt_dec (key x) (key y)) as [Hlt | Hge]; simpl.
    + rewrite IH. simpl.
      destruct (Req_dec_T (key y) p), (Req_dec_T (key x) p);
        try reflexivity. exfalso. lra.
    + reflexivity.
Qed.

Lemma sorted_reverse_stable (p : R) (l : list A) :
  filter (keyed p) (sorted_reverse key l) = filter (keyed p) l.
Proof.
  induction l as [|x l IH]; simpl.
  - reflexivity.
  - rewrite insert_reverse_stable. simpl. now rewrite IH.
Qed.
End SortedReverseFacts.

(** ** Softmax, maximum and the network *)

Section TorchFacts.
Import Torch.
Local Open Scope R_scope.







Lemma softmax_length (row : list R) : List.length (softmax row) = List.length row.
Proof.
  destruct row as [|x row]; [reflexivity |].
  unfold softmax. now rewrite !length_map.
Qed.




(** The scan of [torch.max] keeps the first position of the largest value. *)
Lemma max_from_spec (row : list R) :
  forall (pre : list R) (best : R) (bi : nat),
    (bi < List.length pre)%nat ->
    nth bi pre 0 = best ->
    (forall j, (j < List.length pre)%nat -> nth j pre 0 <= best) ->
    (forall j, (j < bi)%nat -> nth j pre 0 < best) ->
    forall v k, max_from best bi (List.length pre) row = (v, k) ->
      (k < List.length (pre ++ row))%nat /\
      nth k (pre ++ row) 0 = v /\
      (forall j, (j < List.length (pre ++ row))%nat -> nth j (pre ++ row) 0 <= v) /\
      (forall j, (j < k)%nat -> nth j (pre ++ row) 0 < v).
Proof.
  induction row as [|x row IH]; intros pre best bi Hbi Hbest Hmax Hfirst v k Hrun.
  - simpl in Hrun. injection Hrun as <- <-. rewrite app_nil_r. auto.
  - simpl in Hrun.
    assert (Hlen : List.length (pre ++ [x]) = S (List.length pre)).
    { rewrite length_app. simpl. lia. }
    replace (pre ++ x :: row) with ((pre ++ [x]) ++ row)
      by (rewrite <- app_assoc; reflexivity).
    unfold Rltb in Hrun. destruct (Rlt_dec best x) as [Hlt | Hge].
    + apply (IH (pre ++ [x]) x (List.length pre)).
      * lia.
      * now rewrite nth_middle.
      * intros j Hj. rewrite Hlen in Hj.
        destruct (Nat.eq_dec j (List.length pre)) as [-> | Hne].
        -- rewrite nth_middle. lra.
        -- rewrite app_nth1 by lia. specialize (Hmax j ltac:(lia)). lra.
      * intros j Hj. rewrite app_nth1 by lia. specialize (Hmax j Hj). lra.
      * now rewrite Hlen.
    + apply (IH (pre ++ [x]) best bi).
      * lia.
      * now rewrite app_nth1.
      * intros j Hj. rewrite Hlen in Hj.
        destruct (Nat.eq_dec j (List.length pre)) as [-> | Hne].
        -- rewrite nth_middle. lra.
        -- rewrite app_nth1 by lia. apply Hmax. lia.
      * intros j Hj. rewrite app_nth1 by lia. now apply Hfirst.
      * now rewrite Hlen.
Qed.

Lemma max_spec (row : list R) (v : R) (k : nat) :
  Torch.max row = Ok (v, k) ->
  (k < List.length row)%nat /\
  nth k row 0 = v /\
  (forall j, (j < List.length row)%nat -> nth j row 0 <= v) /\
  (forall j, (j < k)%nat -> nth j row 0 < v).
Proof.
  destruct row as [|x row]; simpl; [discriminate |].
  intros H. injection H as H.
  apply (max_from_spec row [x] x 0%nat); simpl; auto.
  - intros j Hj. assert (j = 0%nat) as -> by lia. lra.
  - intros j Hj. lia.
Qed.

Lemma max_nonempty (row : list R) :
  row <> [] -> exists v k, Torch.max row = Ok (v, k).
Proof.
  destruct row as [|x row]; [congruence | intros _]. simpl.
  destruct (max_from x 0 1 row) as [v k]. eauto.
Qed.

Lemma forward_length (m : Module) (mask : nat -> bool) (x : Tensor) :
  List.length (forward m mask x) = out_features m.
Proof. unfold forward. now rewrite length_map, length_seq. Qed.

End TorchFacts.

(** ** Loading *)

Section LoadFacts.
Import Torch Files Dep Spec Props.

(** [__init__] succeeds exactly when the class-map file is a JSON object, the
    model file is a checkpoint, and the checkpoint has as many outputs as the
    class map has entries; it then returns the predictor described here. *)
Lemma init_ok_iff (fs : FileSystem) (cuda : bool) (mp cp : string)
  (dev : option string) (self : ElectricalComponentPredictor) :
  __init__ fs cuda mp cp dev = Ok self <->
  exists members sd,
    fs cp = JsonObject members /\ fs mp = Checkpoint sd /\
    fc_3_out_features sd = len (of_pairs members) /\
    self =
      {| model_path := mp; class_map_path := cp;
         device := match dev with
                   | Some d => if String.eqb d "" then (if cuda then "cuda" else "cpu") else d
                   | None => if cuda then "cuda" else "cpu"
                   end;
         model := Some {| out_features := len (of_pairs members);
                          params := sd; training := false |};
         class_map := Some (of_pairs members);
         transform := Some Resize_ToTensor_Normalize |}.
Proof.
  unfold __init__, _load_model, _load_class_map, _setup_transforms,
    with_model, with_class_map, with_transform, exists_, json_load, torch_load,
    load_state_dict, eval; simpl.
  split.
  - destruct (fs mp) as [| g | ms | sd | img] eqn:Emp; simpl; try discriminate;
      destruct (fs cp) as [| g' | members | sd' | img'] eqn:Ecp; simpl;
      try discriminate.
    destruct (Nat.eqb (fc_3_out_features sd) (len (of_pairs members))) eqn:En;
      simpl; try discriminate.
    rewrite Ecp. simpl. intros H. injection H as <-.
    apply Nat.eqb_eq in En. exists members, sd. rewrite En. repeat split; auto.
  - intros (members & sd & Ecp & Emp & En & ->).
    rewrite Emp, Ecp. simpl. rewrite En, Nat.eqb_refl. simpl.
    rewrite Ecp. simpl. reflexivity.
Qed.

End LoadFacts.

(** ** The steps of [predict] *)

Section PredictFacts.
Import Torch Files Dep Spec Props.

Lemma int_raise (s : string) (e : PyExc) : Py.int s = Raise e -> str_exc e <> "".
Proof.
  unfold Py.int. destruct (int_literal _); intros H; [discriminate |].
  injection H as <-. simpl. discriminate.
Qed.

Lemma tensor_getitem_raise (row : list R) (i : Z) (e : PyExc) :
  Torch.getitem row i = Raise e -> str_exc e <> "".
Proof.
  unfold Torch.getitem.
  destruct (_ && _); [discriminate |]. destruct (_ && _); [discriminate |].
  intros H. injection H as <-. simpl. discriminate.
Qed.

Lemma tensor_getitem_ok (row : list R) (i : Z) (p : R) :
  Torch.getitem row i = Ok p -> In p row.
Proof.
  unfold Torch.getitem.
  destruct ((0 <=? i)%Z && (i <? Z.of_nat (List.length row))%Z) eqn:E1.
  - intros H. injection H as <-. apply nth_In.
    apply andb_true_iff in E1. destruct E1 as [E1 E2].
    apply Z.leb_le in E1. apply Z.ltb_lt in E2. lia.
  - destruct ((- Z.of_nat (List.length row) <=? i)%Z && (i <? 0)%Z) eqn:E2;
      [| discriminate].
    intros H. injection H as <-. apply nth_In.
    apply andb_true_iff in E2. destruct E2 as [E2 E3].
    apply Z.leb_le in E2. apply Z.ltb_lt in E3. lia.
Qed.

Lemma tensor_getitem_nat (row : list R) (i : nat) :
  i < List.length row -> Torch.getitem row (Z.of_nat i) = Ok (nth i row 0%R).
Proof.
  intros Hi. unfold Torch.getitem.
  replace ((0 <=? Z.of_nat i)%Z) with true by (symmetry; apply Z.leb_le; lia).
  replace ((Z.of_nat i <? Z.of_nat (List.length row))%Z) with true
    by (symmetry; apply Z.ltb_lt; lia).
  simpl. now rewrite Nat2Z.id.
Qed.

Lemma fill_prob_dist_raise (probabilities : list R)
  (remaining : list (string * string)) (d : dict R) (e : PyExc) :
  fill_prob_dist probabilities remaining d = Raise e -> str_exc e <> "".
Proof.
  revert d. induction remaining as [|[idx name] rest IH]; simpl; intros d H.
  - discriminate.
  - destruct (Py.int idx) as [i |e'] eqn:Ei; simpl in H.
    + destruct (Torch.getitem probabilities i) as [p | e''] eqn:Ep; simpl in H.
      * eauto.
      * injection H as <-. eapply tensor_getitem_raise; eauto.
    + injection H as <-. eapply int_raise; eauto.
Qed.

(** The labels of the filled dictionary are those it started with and the
    labels visited; its keys stay distinct; its values come from the row. *)
Lemma fill_prob_dist_keys (probabilities : list R)
  (remaining : list (string * string)) (d pd : dict R) :
  fill_prob_dist probabilities remaining d = Ok pd ->
  (forall label, In label (keys pd) <->
                 In label (keys d) \/ In label (map snd remaining)) /\
  (NoDup (keys d) -> NoDup (keys pd)) /\
  (forall P : R -> Prop,
      Forall P probabilities -> Forall P (values d) -> Forall P (values pd)).
Proof.
  revert d. induction remaining as [|[idx name] rest IH]; simpl; intros d H.
  - injection H as <-. repeat split; auto; tauto.
  - destruct (Py.int idx) as [i |e'] eqn:Ei; simpl in H; [| discriminate].
    destruct (Torch.getitem probabilities i) as [p | e''] eqn:Ep; simpl in H;
      [| discriminate].
    apply IH in H. destruct H as (Hk & Hn & Hv). repeat split.
    + intros Hin. apply Hk in Hin. rewrite in_keys_set in Hin.
      intuition auto.
    + intros Hin. apply Hk. rewrite in_keys_set. intuition auto.
    + intros Hd. apply Hn, NoDup_keys_set, Hd.
    + intros P HP Hd. apply Hv; [assumption |].
      apply tensor_getitem_ok in Ep. rewrite Forall_forall in HP.
      specialize (HP p Ep). clear - HP Hd.
      induction d as [|[k v] d IHd]; simpl.
      * constructor; [assumption | constructor].
      * inversion Hd; subst.
        destruct (String.eqb name k); simpl; constructor; auto.
Qed.

(** With pairwise distinct labels no entry is overwritten: the dictionary is
    extended by one entry per class, in the order of the class map. *)
Lemma fill_prob_dist_distinct (probabilities : list R)
  (remaining : list (string * string)) (idxs : list nat) (d : dict R) :
  Forall2 (fun k i => Py.int k = Ok (Z.of_nat i)) (map fst remaining) idxs ->
  Forall (fun i => i < List.length probabilities) idxs ->
  NoDup (keys d ++ map snd remaining) ->
  fill_prob_dist probabilities remaining d =
    Ok (d ++ combine (map snd remaining)
                     (map (fun i => nth i probabilities 0%R) idxs)).
Proof.
  revert idxs d. induction remaining as [|[idx name] rest IH]; simpl;
    intros idxs d Hk Hi Hd.
  - inversion Hk; subst. simpl. now rewrite app_nil_r.
  - inversion Hk as [|? i ? idxs' Hint Hk']; subst. inversion Hi; subst.
    rewrite Hint. simpl. rewrite tensor_getitem_nat by assumption. simpl.
    assert (Hfresh : ~ In name (keys d)).
    { apply NoDup_remove_2 in Hd. intros Hin. apply Hd, in_or_app. now left. }
    rewrite set_fresh by assumption. rewrite (IH idxs').
    + now rewrite <- app_assoc.
    + assumption.
    + assumption.
    + unfold keys in *. rewrite map_app. simpl. now rewrite <- app_assoc.
Qed.

Lemma predict_body_raise (self : ElectricalComponentPredictor)
  (mask : nat -> bool) (x : Tensor) (e : PyExc) :
  predict_body self mask x = Raise e -> str_exc e <> "".
Proof.
  unfold predict_body. destruct (model self) as [m |]; simpl.
  2: { intros H. injection H as <-. simpl. discriminate. }
  destruct (Torch.max (softmax (forward m mask x))) as [[conf idx] | e'] eqn:Emax;
    simpl.
  2: { intros H. injection H as <-. destruct (softmax (forward m mask x));
       simpl in Emax; [| discriminate]. injection Emax as <-. simpl. discriminate. }
  destruct (class_map self) as [cm |]; simpl.
  2: { intros H. injection H as <-. simpl. discriminate. }
  unfold Py.getitem. destruct (get (str idx) cm) as [cls |]; simpl.
  2: { intros H. injection H as <-. simpl. apply repr_nonempty. }
  destruct (fill_prob_dist (softmax (forward m mask x)) (items cm) [])
    as [pd | e'] eqn:Efill; simpl; [discriminate |].
  intros H. injection H as <-. eapply fill_prob_dist_raise; eauto.
Qed.

(** [predict] returns one of its two dictionaries: the failure dictionary with
    a message, or the success dictionary built from the steps shown. *)
Lemma predict_cases (fs : FileSystem) (self : ElectricalComponentPredictor)
  (mask : nat -> bool) (path : string) :
  (exists msg, msg <> "" /\ predict fs self mask path = failure msg) \/
  (exists x m cm conf idx cls pd,
      preprocess_image fs self path = Some x /\
      model self = Some m /\ class_map self = Some cm /\
      Torch.max (softmax (forward m mask x)) = Ok (conf, idx) /\
      get (str idx) cm = Some cls /\
      fill_prob_dist (softmax (forward m mask x)) (items cm) [] = Ok pd /\
      predict fs self mask path =
        [ ("success", PyBool true);
          ("class_name", PyStr cls);
          ("confidence", PyFloat conf);
          ("probabilities", PyDict (firstn 5 (sorted_reverse snd (items pd))));
          ("all_probabilities", PyDict pd) ]).
Proof.
  unfold predict. destruct (preprocess_image fs self path) as [x |] eqn:Epre.
  2: { left. eexists. split; [| reflexivity]. discriminate. }
  destruct (predict_body self mask x) as [res | e] eqn:Ebody.
  2: { left. eexists. split; [| reflexivity]. eapply predict_body_raise; eauto. }
  right. unfold predict_body in Ebody.
  destruct (model self) as [m |]; simpl in Ebody; [| discriminate].
  destruct (Torch.max (softmax (forward m mask x))) as [[conf idx] | e'] eqn:Emax;
    simpl in Ebody; [| discriminate].
  destruct (class_map self) as [cm |]; simpl in Ebody; [| discriminate].
  unfold Py.getitem in Ebody.
  destruct (get (str idx) cm) as [cls |] eqn:Eget; simpl in Ebody; [| discriminate].
  destruct (fill_prob_dist (softmax (forward m mask x)) (items cm) [])
    as [pd | e'] eqn:Efill; simpl in Ebody; [| discriminate].
  rewrite of_pairs_NoDup in Ebody.
  - injection Ebody as <-.
    exists x, m, cm, conf, idx, cls, pd. repeat split; auto.
  - apply fill_prob_dist_keys in Efill. destruct Efill as (_ & Hnd & _).
    specialize (Hnd (NoDup_nil _)).
    apply (Permutation_NoDup
             (Permutation_map fst (Permutation_sym (sorted_reverse_perm snd (items pd)))))
      in Hnd.
    rewrite <- (firstn_skipn 5 (sorted_reverse snd (items pd))) in Hnd.
    rewrite map_app in Hnd. now apply NoDup_app_remove_r in Hnd.
Qed.

Lemma failure_not_succeeded (msg : string) : ~ succeeded (failure msg).
Proof. unfold succeeded, failure. simpl. discriminate. Qed.
End PredictFacts.

(** ** The example artifacts load *)

Section ExampleFacts.
Import Torch Files Dep Spec Props Examples.

Lemma new_predictor_loaded (n : nat) (members : list (string * string)) :
  len (of_pairs members) = n ->
  new_predictor n members = Ok (loaded n members).
Proof.
  intros Hn. unfold new_predictor. apply init_ok_iff.
  exists members, (flat_checkpoint n). repeat split. simpl. now rewrite Hn.
Qed.
End ExampleFacts.

(** ** Class information *)

Section ClassInfoClaims.
Import Torch Files Dep Spec Props Examples.



Lemma get_keys_values {V : Type} (d : dict V) :
  NoDup (keys d) -> map (fun k => get k d) (keys d) = map Some (values d).
Proof.
  induction d as [|[k v] d IH]; simpl; intros Hd.
  - reflexivity.
  - inversion Hd as [|? ? Hn Hd']; subst. rewrite String.eqb_refl. f_equal.
    rewrite <- IH by assumption. apply map_ext_in. intros k0 Hk0.
    destruct (String.eqb k0 k) eqn:E; [| reflexivity].
    apply String.eqb_eq in E. subst. contradiction.
Qed.

(** C7 (as the code has it): [classes] lists the labels of the loaded class
    map in the order in which the class-map file stores its keys (a repeated
    key counts where it first occurs), not by ascending index; the two orders
    agree when the file stores the keys "0", "1", ... in ascending order. *)
Theorem classes_in_storage_order (fs : FileSystem) (cuda : bool)
  (mp cp : string) (dev : option string) (self : ElectricalComponentPredictor)
  (members : list (string * string)) :
  __init__ fs cuda mp cp dev = Ok self ->
  fs cp = JsonObject members ->
  exists info,
    get_class_info self = Ok info /\
    class_mapping info = of_pairs members /\
    classes info = map snd (of_pairs members) /\
    (NoDup (map fst members) -> classes info = map snd members) /\
    (keys (class_mapping info) = map str (seq 0 (num_classes info)) ->
     map Some (classes info) = labels_ascending (class_mapping info)).
Proof.
  intros Hinit Hfile. apply init_ok_iff in Hinit.
  destruct Hinit as (members' & sd & Hfile' & _ & _ & ->).
  rewrite Hfile in Hfile'. injection Hfile' as <-.
  unfold get_class_info. simpl. eexists. split; [reflexivity |]. simpl.
  repeat split.
  - intros Hnd. now rewrite of_pairs_NoDup.
  - intros Hkeys. unfold labels_ascending.
    rewrite <- get_keys_values by apply NoDup_keys_of_pairs.
    rewrite Hkeys at 1. now rewrite map_map.
Qed.

Lemma classes_in_storage_order_witness :
  exists info,
    get_class_info (loaded 3 three_classes) = Ok info /\
    class_mapping info = of_pairs three_classes /\
    classes info = map snd (of_pairs three_classes) /\
    (NoDup (map fst three_classes) -> classes info = map snd three_classes) /\
    (keys (class_mapping info) = map str (seq 0 (num_classes info)) ->
     map Some (classes info) = labels_ascending (class_mapping info)).
Proof.
  apply (classes_in_storage_order (disk 3 three_classes) false
           "backend/../model/electrical_component_classifier.pth"
           "backend/../model/class_map.json"
           None (loaded 3 three_classes) three_classes).
  - reflexivity.
  - reflexivity.
Defined.

(** C7 (as stated) fails: a class map stored as
    [{"1": "capacitor", "0": "resistor"}] loads, and [classes] is
    [capacitor; resistor], which is not the order of ascending index. *)
Lemma classes_not_by_ascending_index :
  new_predictor 2 swapped_classes = Ok (loaded 2 swapped_classes) /\
  get_class_info (loaded 2 swapped_classes) =
    Ok {| num_classes := 2; classes := ["capacitor"; "resistor"];
          class_mapping := [("1", "capacitor"); ("0", "resistor")] |} /\
  labels_ascending [("1", "capacitor"); ("0", "resistor")] =
    [Some "resistor"; Some "capacitor"] /\
  map Some ["capacitor"; "resistor"] <>
    labels_ascending [("1", "capacitor"); ("0", "resistor")].
Proof.
  repeat split; try reflexivity. vm_compute. discriminate.
Qed.
End ClassInfoClaims.

(** ** Initialization *)

Section InitClaims.
Import Torch Files Dep Spec Props Examples.


End InitClaims.

(** ** Evaluating [predict] on the example artifacts

    The example checkpoint scores every class alike, so every comparison of
    two probabilities is a comparison of a number with itself. *)

Ltac unfold_predict :=
  cbv - [exp Rplus Rminus Rmult Rdiv Rinv Ropp Rmax Rlt_dec IZR].

Ltac settle_ties :=
  repeat match goal with
    | |- context [Rlt_dec ?a ?a] =>
        let H := fresh "H" in
        destruct (Rlt_dec a a) as [H | _]; [exfalso; exact (Rlt_irrefl _ H) |]
    end.

Ltac run_predict := unfold_predict; settle_ties; unfold_predict.

Ltac compare_reals :=
  repeat match goal with
    | |- context [Rlt_dec ?a ?b] => destruct (Rlt_dec a b); try lra
    end.

Section Checks.
Import Torch Files Dep Spec Props Examples.
Local Open Scope R_scope.

Example max_first_of_ties :
  Torch.max [1 / 4; 1 / 2; 1 / 2; 1 / 8] = Ok (1 / 2, 1%nat).
Proof. unfold_predict. compare_reals. reflexivity. Qed.

Example max_of_empty_row_raises :
  Torch.max [] =
  Raise (IndexError "max(): Expected reduction dim 1 to have non-zero size.").
Proof. reflexivity. Qed.

Example sorted_reverse_keeps_ties_in_order :
  sorted_reverse snd [("a", 1 / 4); ("b", 1 / 2); ("c", 1 / 4); ("d", 1 / 2)] =
  [("b", 1 / 2); ("d", 1 / 2); ("a", 1 / 4); ("c", 1 / 4)].
Proof. unfold_predict. compare_reals. reflexivity. Qed.

Example getitem_counts_from_the_end :
  Torch.getitem [1 / 4; 1 / 2; 1 / 8] (-1) = Ok (1 / 8) /\
  Torch.getitem [1 / 4; 1 / 2; 1 / 8] 3 =
    Raise (IndexError "index 3 is out of bounds for dimension 0 with size 3").
Proof. split; reflexivity. Qed.

Example int_examples :
  Py.int " 12 " = Ok 12%Z /\ Py.int "-1" = Ok (-1)%Z /\
  Py.int "1_0" = Ok 10%Z /\ Py.int "007" = Ok 7%Z /\
  Py.int "1__0" =
    Raise (ValueError "invalid literal for int() with base 10: '1__0'").
Proof. repeat split; reflexivity. Qed.

Example json_repeated_name_overwrites :
  of_pairs [("0", "resistor"); ("1", "capacitor"); ("0", "diode")] =
  [("0", "diode"); ("1", "capacitor")].
Proof. reflexivity. Qed.

Example softmax_of_equal_scores : softmax [0; 0] = [1 / 2; 1 / 2].
Proof.
  unfold_predict.
  replace (exp (0 - Rmax 0 0) / (exp (0 - Rmax 0 0) + (exp (0 - Rmax 0 0) + 0)))
    with (1 / 2); [reflexivity |].
  rewrite Rmax_left by lra. replace (0 - 0) with 0 by lra. rewrite exp_0. lra.
Qed.
End Checks.

Section PredictClaims.
Import Torch Files Dep Spec Props Examples.
Local Open Scope R_scope.

Lemma photo_succeeds :
  succeeded (predict (disk 3 three_classes) (loaded 3 three_classes) no_mask
               "uploads/photo.png").
Proof. unfold succeeded. run_predict. reflexivity. Qed.


(** C1: when a prediction succeeds, [class_name] is the label that the class
    map gives to the index of the largest softmax probability, [confidence] is
    that probability, and among several largest entries the one with the
    lowest index is taken. *)
Theorem class_name_is_first_argmax (fs : FileSystem)
  (self : ElectricalComponentPredictor) (mask : nat -> bool) (path : string) :
  succeeded (predict fs self mask path) ->
  exists cm probs i label,
    class_map self = Some cm /\
    probabilities_of fs self mask path = Some probs /\
    (i < List.length probs)%nat /\
    (forall j, (j < List.length probs)%nat -> nth j probs 0 <= nth i probs 0) /\
    (forall j, (j < i)%nat -> nth j probs 0 < nth i probs 0) /\
    get (str i) cm = Some label /\
    get "class_name" (predict fs self mask path) = Some (PyStr label) /\
    get "confidence" (predict fs self mask path) = Some (PyFloat (nth i probs 0)).
Proof.
  intros Hok.
  destruct (predict_cases fs self mask path)
    as [(msg & _ & Hf) | (x & m & cm & conf & idx & cls & pd & Hpre & Hm & Hcm
                          & Hmax & Hget & Hfill & Hres)].
  - rewrite Hf in Hok. now apply failure_not_succeeded in Hok.
  - apply max_spec in Hmax. destruct Hmax as (Hlt & Hnth & Hall & Hfirst).
    exists cm, (softmax (forward m mask x)), idx, cls.
    unfold probabilities_of. rewrite Hpre, Hm, Hres, Hnth. simpl.
    repeat split; auto.
Qed.

Lemma class_name_is_first_argmax_witness :
  exists cm probs i label,
    class_map (loaded 3 three_classes) = Some cm /\
    probabilities_of (disk 3 three_classes) (loaded 3 three_classes) no_mask
      "uploads/photo.png" = Some probs /\
    (i < List.length probs)%nat /\
    (forall j, (j < List.length probs)%nat -> nth j probs 0 <= nth i probs 0) /\
    (forall j, (j < i)%nat -> nth j probs 0 < nth i probs 0) /\
    get (str i) cm = Some label /\
    get "class_name"
      (predict (disk 3 three_classes) (loaded 3 three_classes) no_mask
         "uploads/photo.png") = Some (PyStr label) /\
    get "confidence"
      (predict (disk 3 three_classes) (loaded 3 three_classes) no_mask
         "uploads/photo.png") = Some (PyFloat (nth i probs 0)).
Proof.
  apply (class_name_is_first_argmax (disk 3 three_classes)
           (loaded 3 three_classes) no_mask "uploads/photo.png").
  exact photo_succeeds.
Defined.

(** C5: [predict] returns a dictionary on every input and raises nothing.  When
    preprocessing fails (a missing file, a zero-byte file, content that is no
    image) or a later step raises, the dictionary has [success] false, and
    every dictionary with [success] false carries a non-empty [error]. *)
Theorem predict_returns_structured_failure (fs : FileSystem)
  (self : ElectricalComponentPredictor) (mask : nat -> bool) (path : string) :
  (exists b, get "success" (predict fs self mask path) = Some (PyBool b)) /\
  (preprocess_image fs self path = None ->
   get "success" (predict fs self mask path) = Some (PyBool false)) /\
  (forall x e, preprocess_image fs self path = Some x ->
               predict_body self mask x = Raise e ->
               get "success" (predict fs self mask path) = Some (PyBool false)) /\
  (get "success" (predict fs self mask path) = Some (PyBool false) ->
   exists msg, get "error" (predict fs self mask path) = Some (PyStr msg) /\
               msg <> "") /\
  ((fs path = Absent \/ exists content, fs path = Garbage content) ->
   predict fs self mask path = failure "Failed to preprocess image").
Proof.
  split; [| split; [| split; [| split]]].
  - destruct (predict_cases fs self mask path)
      as [(msg & _ & ->) | (x & m & cm & conf & idx & cls & pd & _ & _ & _ & _
                            & _ & _ & ->)]; simpl; eauto.
  - intros Hpre. unfold predict. now rewrite Hpre.
  - intros x e Hpre Hbody. unfold predict. now rewrite Hpre, Hbody.
  - destruct (predict_cases fs self mask path)
      as [(msg & Hmsg & ->) | (x & m & cm & conf & idx & cls & pd & _ & _ & _
                               & _ & _ & _ & ->)]; simpl.
    + intros _. eauto.
    + discriminate.
  - intros Hfile. unfold predict, preprocess_image, exists_, image_open.
    destruct Hfile as [-> | [content ->]]; reflexivity.
Qed.



Lemma fill_prob_dist_labels (probabilities : list R)
  (remaining : list (string * string)) (d pd : dict R) :
  fill_prob_dist probabilities remaining d = Ok pd ->
  NoDup (keys d ++ map snd remaining) ->
  keys pd = keys d ++ map snd remaining.
Proof.
  revert d. induction remaining as [|[idx name] rest IH]; simpl; intros d H Hd.
  - injection H as <-. now rewrite app_nil_r.
  - destruct (Py.int idx) as [i |e'] eqn:Ei; simpl in H; [| discriminate].
    destruct (Torch.getitem probabilities i) as [p | e''] eqn:Ep; simpl in H;
      [| discriminate].
    assert (Hfresh : ~ In name (keys d)).
    { apply NoDup_remove_2 in Hd. intros Hin. apply Hd, in_or_app. now left. }
    rewrite set_fresh in H by assumption. apply IH in H.
    + rewrite H. unfold keys. rewrite map_app. simpl. now rewrite <- app_assoc.
    + unfold keys in *. rewrite map_app. simpl. now rewrite <- app_assoc.
Qed.

Lemma Forall2_int_str (l : list nat) :
  Forall2 (fun k i => Py.int k = Ok (Z.of_nat i)) (map str l) l.
Proof. induction l; simpl; constructor; auto using int_str. Qed.

Lemma firstn_min {A : Type} (k : nat) (l : list A) :
  firstn (Nat.min k (List.length l)) l = firstn k l.
Proof.
  destruct (Nat.le_gt_cases k (List.length l)) as [H | H].
  - now rewrite Nat.min_l.
  - rewrite Nat.min_r by lia. rewrite firstn_all. symmetry.
    apply firstn_all2. lia.
Qed.

(** With the keys "0", "1", ... stored in ascending order, the entries taken
    by ascending index are the labels paired with the row. *)
Lemma indexed_probabilities_ascending (cm : dict string) (probs : list R) :
  NoDup (keys cm) ->
  keys cm = map str (seq 0 (len cm)) ->
  indexed_probabilities cm probs =
    combine (values cm) (map (fun i => nth i probs 0) (seq 0 (len cm))).
Proof.
  intros Hnd Hkeys. unfold indexed_probabilities.
  assert (H : map (fun i => get (str i) cm) (seq 0 (len cm)) =
              map Some (values cm)).
  { rewrite <- get_keys_values by assumption. rewrite Hkeys at 1.
    now rewrite map_map. }
  revert H. generalize (values cm). generalize (seq 0 (len cm)).
  induction l as [|i l IH]; intros [|v vs] H; simpl in *; try discriminate.
  - reflexivity.
  - injection H as Hi Hl. rewrite Hi. simpl. f_equal. now apply IH.
Qed.

(** C2 (as the code has it): when a prediction succeeds, [probabilities] holds
    the first five entries (all of them when there are fewer) of
    [all_probabilities] sorted by probability, descending; entries with equal
    probability keep the order they have in [all_probabilities], which is the
    order in which the class map stores its labels.  [all_probabilities] has
    one entry per distinct label, so the length is min(5, N) when the N labels
    are pairwise distinct.  When, moreover, the class map stores the keys "0",
    ..., "N-1" in ascending order, ties are broken by ascending class index. *)
Theorem top_k_is_stable_prefix (fs : FileSystem)
  (self : ElectricalComponentPredictor) (mask : nat -> bool) (path : string) :
  succeeded (predict fs self mask path) ->
  exists cm all top,
    class_map self = Some cm /\
    get "all_probabilities" (predict fs self mask path) = Some (PyDict all) /\
    get "probabilities" (predict fs self mask path) = Some (PyDict top) /\
    List.length top = Nat.min 5 (List.length all) /\
    (exists ranking,
        top = firstn 5 ranking /\
        Permutation ranking all /\
        descending ranking /\
        forall p, with_probability p ranking = with_probability p all) /\
    (NoDup (values cm) ->
     keys all = values cm /\ List.length top = Nat.min 5 (len cm)) /\
    (initialized self -> NoDup (values cm) ->
     keys cm = map str (seq 0 (len cm)) ->
     forall probs, probabilities_of fs self mask path = Some probs ->
                   top = top_k cm probs).
Proof.
  intros Hok.
  destruct (predict_cases fs self mask path)
    as [(msg & _ & Hf) | (x & m & cm & conf & idx & cls & pd & Hpre & Hm & Hcm
                          & Hmax & Hget & Hfill & Hres)].
  - rewrite Hf in Hok. now apply failure_not_succeeded in Hok.
  - rewrite Hres. simpl. exists cm, pd, (firstn 5 (sorted_reverse snd (items pd))).
    assert (Hlen : List.length (firstn 5 (sorted_reverse snd (items pd))) =
                   Nat.min 5 (List.length pd)).
    { now rewrite length_firstn, sorted_reverse_length. }
    split; [exact Hcm |]. split; [reflexivity |]. split; [reflexivity |].
    split; [exact Hlen |]. split; [| split].
    + exists (sorted_reverse snd (items pd)). repeat split.
      * apply sorted_reverse_perm.
      * apply sorted_reverse_sorted.
      * intros p. apply (sorted_reverse_stable snd p).
    + intros Hlabels.
      pose proof (fill_prob_dist_labels _ _ _ _ Hfill Hlabels) as Hkeys.
      split; [exact Hkeys |]. rewrite Hlen. f_equal.
      unfold keys, items in Hkeys. simpl in Hkeys. unfold len.
      rewrite <- (length_map fst pd), <- (length_map snd cm). now rewrite Hkeys.
    + intros (m0 & cm0 & Hm0 & Hcm0 & _ & _ & Hout & Hnd) Hlabels Hkeys probs Hp.
      rewrite Hm in Hm0. injection Hm0 as <-.
      rewrite Hcm in Hcm0. injection Hcm0 as <-.
      unfold probabilities_of in Hp. rewrite Hpre, Hm in Hp. injection Hp as <-.
      set (probs := softmax (forward m mask x)) in *.
      assert (Hsize : List.length probs = len cm).
      { unfold probs. now rewrite softmax_length, forward_length. }
      rewrite (fill_prob_dist_distinct probs (items cm) (seq 0 (len cm)) [])
        in Hfill.
      * injection Hfill as <-. unfold top_k.
        rewrite indexed_probabilities_ascending by assumption.
        unfold items, values.
        replace (len cm) with
          (List.length (sorted_reverse snd
             (combine (map snd cm)
                (map (fun i => nth i probs 0) (seq 0 (len cm))))) ) at 2.
        -- now rewrite firstn_min.
        -- rewrite sorted_reverse_length, length_combine, !length_map,
             length_seq. unfold len. lia.
      * unfold items. fold (keys cm). rewrite Hkeys. apply Forall2_int_str.
      * apply Forall_forall. intros i Hi. apply in_seq in Hi. lia.
      * exact Hlabels.
Qed.

Lemma top_k_is_stable_prefix_witness :
  exists cm all top,
    class_map (loaded 3 three_classes) = Some cm /\
    get "all_probabilities"
      (predict (disk 3 three_classes) (loaded 3 three_classes) no_mask
         "uploads/photo.png") = Some (PyDict all) /\
    get "probabilities"
      (predict (disk 3 three_classes) (loaded 3 three_classes) no_mask
         "uploads/photo.png") = Some (PyDict top) /\
    List.length top = Nat.min 5 (List.length all) /\
    (exists ranking,
        top = firstn 5 ranking /\
        Permutation ranking all /\
        descending ranking /\
        forall p, with_probability p ranking = with_probability p all) /\
    (NoDup (values cm) ->
     keys all = values cm /\ List.length top = Nat.min 5 (len cm)) /\
    (initialized (loaded 3 three_classes) -> NoDup (values cm) ->
     keys cm = map str (seq 0 (len cm)) ->
     forall probs,
       probabilities_of (disk 3 three_classes) (loaded 3 three_classes) no_mask
         "uploads/photo.png" = Some probs ->
       top = top_k cm probs).
Proof.
  apply (top_k_is_stable_prefix (disk 3 three_classes)
           (loaded 3 three_classes) no_mask "uploads/photo.png").
  exact photo_succeeds.
Defined.

Lemma fill_prob_dist_ok (probabilities : list R)
  (remaining : list (string * string)) (idxs : list nat) (d : dict R) :
  Forall2 (fun k i => Py.int k = Ok (Z.of_nat i)) (map fst remaining) idxs ->
  Forall (fun i => (i < List.length probabilities)%nat) idxs ->
  exists pd, fill_prob_dist probabilities remaining d = Ok pd.
Proof.
  revert idxs d. induction remaining as [|[idx name] rest IH]; simpl;
    intros idxs d Hk Hi.
  - eauto.
  - inversion Hk as [|? i ? idxs' Hint Hk']; subst. inversion Hi; subst.
    rewrite Hint. simpl. rewrite tensor_getitem_nat by assumption. simpl.
    eauto.
Qed.

(** Success is the regular case: an initialized predictor whose class map has
    the keys "0", ..., "N-1" in some order, with at least one class, succeeds on
    every picture. *)
Lemma predict_succeeds (fs : FileSystem) (self : ElectricalComponentPredictor)
  (mask : nat -> bool) (path : string) (cm : dict string) (img : Image) :
  initialized self ->
  class_map self = Some cm ->
  (1 <= len cm)%nat ->
  Permutation (keys cm) (map str (seq 0 (len cm))) ->
  fs path = Picture img ->
  succeeded (predict fs self mask path).
Proof.
  intros (m & cm0 & Hm & Hcm0 & Ht & _ & Hout & Hnd) Hcm Hone Hperm Hfile.
  rewrite Hcm in Hcm0. injection Hcm0 as <-.
  unfold succeeded, predict, preprocess_image, exists_, image_open.
  rewrite Hfile, Ht. simpl. unfold predict_body. rewrite Hm, Hcm. simpl.
  set (probs := softmax (forward m mask (Transformed img))).
  assert (Hsize : List.length probs = len cm).
  { unfold probs. now rewrite softmax_length, forward_length. }
  destruct (max_nonempty probs) as (conf & idx & Hmax).
  { intros E. rewrite E in Hsize. simpl in Hsize. lia. }
  rewrite Hmax. simpl.
  pose proof (max_spec _ _ _ Hmax) as (Hlt & _).
  unfold Py.getitem. destruct (get (str idx) cm) as [cls |] eqn:Eget.
  2: { exfalso. apply get_None_iff in Eget. apply Eget.
       eapply Permutation_in; [apply Permutation_sym, Hperm |].
       apply in_map, in_seq. lia. }
  simpl.
  destruct (Permutation_map_inv _ _ Hperm) as (idxs & Hkeys & Hidxs).
  destruct (fill_prob_dist_ok probs (items cm) idxs []) as (pd & Hfill).
  - unfold items. fold (keys cm). rewrite Hkeys. apply Forall2_int_str.
  - apply Forall_forall. intros i Hi.
    eapply Permutation_in in Hi; [| apply Permutation_sym, Hidxs].
    apply in_seq in Hi. lia.
  - rewrite Hfill. reflexivity.
Qed.

(** The predictor initialized from the class map with a gap answers every
    picture with a failure: the key "2" is no index of a row of two. *)
Lemma gap_class_map_predictions_fail :
  predict (disk 2 gap_classes) (loaded 2 gap_classes) no_mask
    "uploads/photo.png" =
  failure "index 2 is out of bounds for dimension 0 with size 2".
Proof. run_predict. reflexivity. Qed.

(** The probability that the example checkpoint gives each of two classes. *)
Lemma flat_pair_half :
  exp (0 - Rmax 0 0) / (exp (0 - Rmax 0 0) + (exp (0 - Rmax 0 0) + 0)) = 1 / 2.
Proof.
  rewrite Rmax_left by lra. replace (0 - 0) with 0 by lra. rewrite exp_0. lra.
Qed.

(** C2 (as stated) fails: with the class map stored as
    [{"1": "capacitor", "0": "resistor"}] and equal probabilities, the ranking
    starts with capacitor (index 1), where ascending index asks for resistor. *)
Lemma top_k_ties_follow_storage_order :
  succeeded (predict (disk 2 swapped_classes) (loaded 2 swapped_classes)
               no_mask "uploads/photo.png") /\
  probabilities_of (disk 2 swapped_classes) (loaded 2 swapped_classes)
    no_mask "uploads/photo.png" = Some [1 / 2; 1 / 2] /\
  get "probabilities"
    (predict (disk 2 swapped_classes) (loaded 2 swapped_classes) no_mask
       "uploads/photo.png") =
    Some (PyDict [("capacitor", 1 / 2); ("resistor", 1 / 2)]) /\
  top_k [("1", "capacitor"); ("0", "resistor")] [1 / 2; 1 / 2] =
    [("resistor", 1 / 2); ("capacitor", 1 / 2)] /\
  get "probabilities"
    (predict (disk 2 swapped_classes) (loaded 2 swapped_classes) no_mask
       "uploads/photo.png") <>
    Some (PyDict (top_k [("1", "capacitor"); ("0", "resistor")] [1 / 2; 1 / 2])).
Proof.
  assert (Htop : get "probabilities"
            (predict (disk 2 swapped_classes) (loaded 2 swapped_classes) no_mask
               "uploads/photo.png") =
            Some (PyDict [("capacitor", 1 / 2); ("resistor", 1 / 2)])).
  { run_predict. rewrite !flat_pair_half. reflexivity. }
  assert (Hspec : top_k [("1", "capacitor"); ("0", "resistor")] [1 / 2; 1 / 2] =
                  [("resistor", 1 / 2); ("capacitor", 1 / 2)]).
  { run_predict. reflexivity. }
  split; [unfold succeeded; run_predict; reflexivity |].
  split; [unfold_predict; rewrite !flat_pair_half; reflexivity |].
  split; [exact Htop |]. split; [exact Hspec |].
  rewrite Htop, Hspec. discriminate.
Qed.

(** A repeated label shortens the ranking: two classes, one entry. *)
Lemma top_k_shorter_with_repeated_label :
  get "probabilities"
    (predict (disk 2 same_label_classes) (loaded 2 same_label_classes) no_mask
       "uploads/photo.png") = Some (PyDict [("resistor", 1 / 2)]).
Proof. run_predict. rewrite !flat_pair_half. reflexivity. Qed.









Lemma div_lt_cancel (a b s : R) : 0 < s -> a / s < b / s -> a < b.
Proof.
  intros Hs H. apply Rmult_lt_reg_r with (r := / s).
  - now apply Rinv_0_lt_compat.
  - exact H.
Qed.

(** The probability of class 0 under the scores 1 and 0. *)
Lemma tilted_first_probability :
  2 / 3 < exp (1 - Rmax 1 0) / (exp (1 - Rmax 1 0) + (exp (0 - Rmax 1 0) + 0)).
Proof.
  rewrite Rmax_left by lra.
  replace (1 - 1) with 0 by lra. replace (0 - 1) with (Ropp 1) by lra.
  rewrite exp_0, exp_Ropp.
  pose proof (exp_ineq1 1 ltac:(lra)) as He.
  assert (H : 0 < / exp 1 < 1 / 2).
  { split; [apply Rinv_0_lt_compat; lra |].
    unfold Rdiv. rewrite Rmult_1_l. apply Rinv_lt_contravar; nra. }
  apply (Rmult_lt_reg_r (1 + (/ exp 1 + 0))); [lra |].
  unfold Rdiv at 2. rewrite Rmult_assoc, Rinv_l by lra. lra.
Qed.

Ltac first_is_larger :=
  match goal with
  | |- context [Rlt_dec (?a / ?s) (?b / ?s)] =>
      let H := fresh "H" in
      destruct (Rlt_dec (a / s) (b / s)) as [H | _];
      [ exfalso; apply div_lt_cancel in H;
        [ apply exp_lt_inv in H; lra
        | pose proof (exp_pos (1 - Rmax 1 0));
          pose proof (exp_pos (0 - Rmax 1 0)); lra ]
      | ]
  end.

(** Two keys that denote one index count its probability twice: with the class
    map [{"0": "resistor", "00": "capacitor"}] and a checkpoint that prefers
    class 0, both entries of [all_probabilities] hold the probability of class
    0, more than 2/3 each. *)
Lemma repeated_index_gains_mass :
  succeeded (predict (disk_with tilted_checkpoint same_index_classes)
               (loaded_with tilted_checkpoint same_index_classes)
               no_mask "uploads/photo.png") /\
  exists p,
    get "all_probabilities"
      (predict (disk_with tilted_checkpoint same_index_classes)
         (loaded_with tilted_checkpoint same_index_classes)
         no_mask "uploads/photo.png") =
      Some (PyDict [("resistor", p); ("capacitor", p)]) /\
    2 / 3 < p /\
    ~ Rabs (sum (values [("resistor", p); ("capacitor", p)]) - 1) <= 1 / 10000.
Proof.
  split.
  - unfold succeeded. unfold_predict. settle_ties. first_is_larger.
    unfold_predict. reflexivity.
  - exists (exp (1 - Rmax 1 0) /
            (exp (1 - Rmax 1 0) + (exp (0 - Rmax 1 0) + 0))).
    split; [| split].
    + unfold_predict. settle_ties. first_is_larger. unfold_predict. reflexivity.
    + exact tilted_first_probability.
    + pose proof tilted_first_probability as Hp. simpl.
      rewrite Rabs_right by lra. lra.
Qed.


(** The random mask does matter for a network left in training mode, which is
    why [_load_model] calls [model.eval()]. *)
Lemma dropout_matters_in_training :
  training training_module = true /\
  forward training_module no_mask (Transformed (RGB [])) <>
  forward training_module drop_all (Transformed (RGB [])).
Proof.
  split; [reflexivity |].
  unfold_predict. intros H. injection H as H.
  rewrite Rmax_right in H by lra. lra.
Qed.
End PredictClaims.

(** ** The lazy singleton under concurrent callers *)

Section AppClaims.
Import Files Dep Spec Props Examples App.

Lemma update_length (t : nat) (pc : Pc) (l : list Pc) :
  List.length (update t pc l) = List.length l.
Proof.
  revert t. induction l as [|x l IH]; intros [|t]; simpl; auto.
Qed.

Lemma count_update (f : Pc -> bool) (t : nat) (pc old : Pc) (l : list Pc) :
  nth_error l t = Some old ->
  count f (update t pc l) + (if f old then 1 else 0) =
  count f l + (if f pc then 1 else 0).
Proof.
  unfold count. revert t.
  induction l as [|x l IH]; intros [|t] H; simpl in *; try discriminate.
  - injection H as ->. destruct (f old), (f pc); simpl; lia.
  - specialize (IH t H). destruct (f x); simpl; lia.
Qed.

Lemma count_le_length (f : Pc -> bool) (l : list Pc) :
  count f l <= List.length l.
Proof. unfold count. apply filter_length_le. Qed.

Lemma nth_error_update (t t' : nat) (pc : Pc) (l : list Pc) :
  nth_error (update t pc l) t' =
  if Nat.eqb t t' then option_map (fun _ => pc) (nth_error l t')
  else nth_error l t'.
Proof.
  revert t t'. induction l as [|x l IH]; intros [|t] [|t']; simpl; auto.
  now destruct (Nat.eqb t t').
Qed.

Lemma nth_error_update_same (t : nat) (pc old : Pc) (l : list Pc) :
  nth_error l t = Some old -> nth_error (update t pc l) t = Some pc.
Proof.
  intros H. now rewrite nth_error_update, Nat.eqb_refl, H.
Qed.

Lemma step_move (env : Env) (s : State) (t : nat) (pc : Pc) :
  nth_error (threads s) t = Some pc -> step env s t = move env s t pc.
Proof. intros H. unfold step. now rewrite H. Qed.

(** Rewrites the next step of a thread whose place is known. *)
Ltac advance H :=
  match goal with
  | |- context [step ?env ?s ?t] =>
      lazymatch s with
      | context [step] => fail
      | _ => rewrite (step_move env s t _ H)
      end
  end;
  cbn [move threads predictor loads].

(** The steps are those of [get_predictor]: a thread that makes its four
    steps without interruption leaves the global as [get_predictor] does and
    ends with the result of [get_predictor]. *)
Lemma uninterrupted_call (env : Env) (s : State) (t : nat) :
  nth_error (threads s) t = Some Called ->
  predictor (run env [t; t; t; t] s) = snd (get_predictor env (predictor s)) /\
  nth_error (threads (run env [t; t; t; t] s)) t =
    Some match fst (get_predictor env (predictor s)) with
         | Ok p => Returned (Some p)
         | Raise e => Raised e
         end.
Proof.
  intros H. unfold run, get_predictor. cbn [fold_left]. advance H.
  destruct (predictor s) as [p |] eqn:Ep.
  - pose proof (nth_error_update_same t Returning _ _ H) as H1. advance H1.
    pose proof (nth_error_update_same t (Returned (Some p)) _ _ H1) as H2.
    advance H2. advance H2. now split.
  - pose proof (nth_error_update_same t Creating _ _ H) as H1. advance H1.
    destruct (create_predictor (fs env) (cuda env) (here env) None None)
      as [p | e].
    + pose proof (nth_error_update_same t (Storing p) _ _ H1) as H2. advance H2.
      pose proof (nth_error_update_same t Returning _ _ H2) as H3. advance H3.
      pose proof (nth_error_update_same t (Returned (Some p)) _ _ H3) as H4.
      now split.
    + pose proof (nth_error_update_same t (Raised e) _ _ H1) as H2.
      advance H2. advance H2. now split.
Qed.

(** Every call of [create_predictor] is made by a thread that found the
    global unset, and each thread makes at most one. *)
Lemma step_loads (env : Env) (s : State) (t : nat) :
  loads s + count creating (threads s) <= count passed_check (threads s) ->
  loads (step env s t) + count creating (threads (step env s t))
    <= count passed_check (threads (step env s t)).
Proof.
  intros Hinv. unfold step, move.
  destruct (nth_error (threads s) t) as [pc |] eqn:Ht; [| exact Hinv].
  destruct pc; simpl; try exact Hinv;
    repeat match goal with
      | |- context [match ?c with _ => _ end] => destruct c; simpl
      end;
    match goal with
    | |- context [update t ?pc' _] =>
        pose proof (count_update creating t pc' _ _ Ht) as Hc;
        pose proof (count_update passed_check t pc' _ _ Ht) as Hp;
        simpl in Hc, Hp; lia
    end.
Qed.

Lemma step_threads (env : Env) (s : State) (t : nat) :
  List.length (threads (step env s t)) = List.length (threads s).
Proof.
  unfold step, move.
  destruct (nth_error (threads s) t) as [pc |]; [| reflexivity].
  destruct pc; simpl; try reflexivity;
    repeat match goal with
      | |- context [match ?c with _ => _ end] => destruct c; simpl
      end;
    apply update_length.
Qed.

Lemma run_loads (env : Env) (schedule : list nat) (s : State) :
  loads s + count creating (threads s) <= count passed_check (threads s) ->
  loads (run env schedule s) <= List.length (threads s).
Proof.
  revert s. induction schedule as [|t schedule IH]; simpl; intros s Hinv.
  - pose proof (count_le_length passed_check (threads s)). lia.
  - rewrite <- (step_threads env s t). apply IH. now apply step_loads.
Qed.

Lemma pc_ok_mono (env : Env) (g g' : option ElectricalComponentPredictor)
  (pc : Pc) :
  (g <> None -> g' <> None) -> pc_ok env g pc -> pc_ok env g' pc.
Proof. destruct pc; simpl; auto. Qed.

Lemma update_ok (env : Env) (g g' : option ElectricalComponentPredictor)
  (l : list Pc) (t : nat) (pc' : Pc) :
  (g <> None -> g' <> None) ->
  pc_ok env g' pc' ->
  (forall t' pc, nth_error l t' = Some pc -> pc_ok env g pc) ->
  forall t' pc, nth_error (update t pc' l) t' = Some pc -> pc_ok env g' pc.
Proof.
  intros Hg Hnew Hold t' pc H. rewrite nth_error_update in H.
  destruct (Nat.eqb t t').
  - destruct (nth_error l t'); simpl in H; [| discriminate].
    injection H as <-. exact Hnew.
  - eapply pc_ok_mono; eauto.
Qed.

Lemma step_well_built (env : Env) (s : State) (t : nat) :
  well_built env s -> well_built env (step env s t).
Proof.
  intros [Hg Ht]. unfold well_built, step, move.
  destruct (nth_error (threads s) t) as [pc |] eqn:E; [| now split].
  pose proof (Ht t pc E) as Hpc.
  destruct pc; simpl in *; try (now split).
  - destruct (predictor s) as [p |] eqn:Ep; split; simpl; auto.
    + apply (update_ok env (Some p)); simpl; auto; discriminate.
    + apply (update_ok env None); simpl; auto.
  - unfold created in *.
    destruct (create_predictor (fs env) (cuda env) (here env) None None)
      as [p |e] eqn:Ec; split; simpl; auto;
      apply (update_ok env (predictor s)); simpl; auto.
  - split; simpl.
    + intros q Hq. injection Hq as <-. exact Hpc.
    + apply (update_ok env (predictor s)); simpl; auto; discriminate.
  - split; simpl; auto.
    apply (update_ok env (predictor s)); simpl; auto.
    destruct (predictor s) as [p |]; [| congruence]. eauto.
Qed.

Lemma run_well_built (env : Env) (schedule : list nat) (s : State) :
  well_built env s -> well_built env (run env schedule s).
Proof.
  revert s. induction schedule as [|t schedule IH]; simpl; intros s H.
  - exact H.
  - apply IH. now apply step_well_built.
Qed.

(** Once the global is set and no thread is between its test and its call of
    [create_predictor], nothing loads again. *)
Lemma step_settled (env : Env) (s : State) (t : nat) :
  predictor s <> None -> count creating (threads s) = 0 ->
  predictor (step env s t) <> None /\
  count creating (threads (step env s t)) = 0 /\
  loads (step env s t) = loads s.
Proof.
  intros Hset Hnone. unfold step, move.
  destruct (nth_error (threads s) t) as [pc |] eqn:E; [| auto].
  destruct pc; simpl; auto.
  - destruct (predictor s) as [p |]; [| congruence]. simpl.
    pose proof (count_update creating t Returning _ _ E) as Hc. simpl in Hc.
    split; [discriminate |]. split; [lia | reflexivity].
  - pose proof (count_update creating t Called _ _ E) as Hc. simpl in Hc. lia.
  - pose proof (count_update creating t Returning _ _ E) as Hc. simpl in Hc.
    split; [discriminate |]. split; [lia | reflexivity].
  - pose proof (count_update creating t (Returned (predictor s)) _ _ E) as Hc.
    simpl in Hc. split; [assumption |]. split; [lia | reflexivity].
Qed.

Lemma run_settled (env : Env) (schedule : list nat) (s : State) :
  predictor s <> None -> count creating (threads s) = 0 ->
  loads (run env schedule s) = loads s.
Proof.
  revert s. induction schedule as [|t schedule IH]; simpl; intros s Hset Hnone.
  - reflexivity.
  - destruct (step_settled env s t Hset Hnone) as (H1 & H2 & H3).
    rewrite IH by assumption. exact H3.
Qed.

Lemma count_creating_called (n : nat) : count creating (repeat Called n) = 0.
Proof. unfold count. induction n as [|n IH]; simpl; auto. Qed.

Lemma run_app (env : Env) (s1 s2 : list nat) (s : State) :
  run env (s1 ++ s2) s = run env s2 (run env s1 s).
Proof. unfold run. apply fold_left_app. Qed.

(** The first call, made alone, loads once and sets the global. *)
Lemma first_call_alone (env : Env) (n : nat) (p : ElectricalComponentPredictor) :
  create_predictor (fs env) (cuda env) (here env) None None = Ok p ->
  run env [0; 0; 0; 0] (init (S n)) =
    {| predictor := Some p; loads := 1;
       threads := Returned (Some p) :: repeat Called n |}.
Proof.
  intros Hc. unfold run, init, step, move. simpl. rewrite Hc. reflexivity.
Qed.

Lemma nth_error_middle (pre rest : list Pc) (x : Pc) :
  nth_error (pre ++ x :: rest) (List.length pre) = Some x.
Proof. induction pre as [|y pre IH]; simpl; auto. Qed.

Lemma update_middle (pre rest : list Pc) (x pc : Pc) :
  update (List.length pre) pc (pre ++ x :: rest) = pre ++ pc :: rest.
Proof. induction pre as [|y pre IH]; simpl; [| rewrite IH]; reflexivity. Qed.

(** When every caller tests the global before any has stored, every caller
    is about to load. *)
Lemma all_test (env : Env) (m : nat) :
  forall pre : list Pc,
    run env (seq (List.length pre) m)
      {| predictor := None; loads := 0; threads := pre ++ repeat Called m |} =
    {| predictor := None; loads := 0; threads := pre ++ repeat Creating m |}.
Proof.
  induction m as [|m IH]; intros pre; simpl; [reflexivity |].
  unfold step, move. cbn [threads predictor loads].
  rewrite nth_error_middle, update_middle.
  replace (pre ++ Creating :: repeat Called m)
    with ((pre ++ [Creating]) ++ repeat Called m)
    by (now rewrite <- app_assoc).
  replace (S (List.length pre)) with (List.length (pre ++ [Creating]))
    by (rewrite length_app; simpl; lia).
  rewrite IH. now rewrite <- app_assoc.
Qed.

Lemma all_load (env : Env) (m : nat) :
  forall (pre : list Pc) (k : nat),
    loads (run env (seq (List.length pre) m)
             {| predictor := None; loads := k;
                threads := pre ++ repeat Creating m |}) = k + m.
Proof.
  induction m as [|m IH]; intros pre k; simpl; [lia |].
  unfold step, move. cbn [threads predictor loads]. rewrite nth_error_middle.
  destruct (create_predictor (fs env) (cuda env) (here env) None None)
    as [p | e]; rewrite update_middle;
    match goal with
    | |- context [pre ++ ?x :: repeat Creating m] =>
        replace (pre ++ x :: repeat Creating m)
          with ((pre ++ [x]) ++ repeat Creating m)
          by (now rewrite <- app_assoc);
        replace (S (List.length pre)) with (List.length (pre ++ [x]))
          by (rewrite length_app; simpl; lia)
    end;
    rewrite IH; lia.
Qed.

(** C9 (as the code has it): [get_predictor] takes no lock.  Under every
    interleaving of N callers the number of loads is at most N; the global only
    ever holds a predictor that [create_predictor] returned, and so does every
    caller that returns.  A load is not repeated once a first call has run to
    its end alone, whatever the later calls do, so calls that do not overlap
    load once; when all N callers test the global before any of them stores,
    there are N loads. *)
Theorem get_predictor_loads (env : Env) (n : nat) (schedule : list nat) :
  loads (run env schedule (init n)) <= n /\
  well_built env (run env schedule (init n)) /\
  (forall p,
      create_predictor (fs env) (cuda env) (here env) None None = Ok p ->
      loads (run env ([0; 0; 0; 0] ++ schedule) (init (S n))) = 1 /\
      loads (run env (one_after_another (S n)) (init (S n))) = 1) /\
  loads (run env (all_test_then_load n) (init n)) = n.
Proof.
  split; [| split; [| split]].
  - replace n with (List.length (threads (init n))) at 2
      by (simpl; apply repeat_length).
    apply run_loads. simpl. rewrite count_creating_called. lia.
  - apply run_well_built. split; simpl.
    + discriminate.
    + intros t pc H. apply nth_error_In, repeat_spec in H. now subst.
  - intros p Hc.
    assert (Hafter : forall later,
               loads (run env ([0; 0; 0; 0] ++ later) (init (S n))) = 1).
    { intros later. rewrite run_app, (first_call_alone env n p Hc).
      rewrite run_settled; simpl; auto.
      - discriminate.
      - unfold count. simpl. apply count_creating_called. }
    split; [apply Hafter |].
    unfold one_after_another. simpl. apply (Hafter (flat_map _ _)).
  - unfold all_test_then_load. rewrite run_app.
    pose proof (all_test env n []) as Htest. simpl in Htest.
    unfold init. rewrite Htest. apply (all_load env n [] 0).
Qed.

(** C9 (as stated) fails: two request threads that both test the global before
    either has stored its predictor both call [create_predictor]; the model
    and the class map are loaded twice. *)
Lemma two_threads_load_twice :
  loads (run server [0; 1; 0; 1; 0; 1; 0; 1] (init 2)) = 2 /\
  threads (run server [0; 1; 0; 1; 0; 1; 0; 1] (init 2)) =
    [Returned (Some (loaded 3 three_classes));
     Returned (Some (loaded 3 three_classes))] /\
  loads (run server [0; 1; 0; 1; 0; 1; 0; 1] (init 2)) <> 1.
Proof.
  assert (H : loads (run server [0; 1; 0; 1; 0; 1; 0; 1] (init 2)) = 2)
    by reflexivity.
  split; [exact H |]. split; [reflexivity |]. rewrite H. discriminate.
Qed.
End AppClaims.

(* ================================================================== *)
(** * Part III: further properties of the prediction module *)
(* ================================================================== *)

Section InitErrors.
Import Torch Files Dep Spec Props Examples Usage.

End InitErrors.

Section PredictMore.
Import Torch Files Dep Spec Props Examples Usage.
Local Open Scope R_scope.





Lemma get_In {V : Type} (d : dict V) (k : string) (v : V) :
  get k d = Some v -> In (k, v) d.
Proof.
  induction d as [|[k' v'] d IH]; simpl; [discriminate |].
  destruct (String.eqb k k') eqn:E.
  - apply String.eqb_eq in E. subst. intros H. injection H as ->. now left.
  - auto.
Qed.

Lemma In_get {V : Type} (d : dict V) (k : string) (v : V) :
  NoDup (keys d) -> In (k, v) d -> get k d = Some v.
Proof.
  induction d as [|[k' v'] d IH]; simpl; intros Hnd Hin; [contradiction |].
  inversion Hnd as [|? ? Hn Hnd']; subst.
  destruct Hin as [Heq | Hin].
  - injection Heq as -> ->. now rewrite String.eqb_refl.
  - destruct (String.eqb k k') eqn:E; [| auto].
    apply String.eqb_eq in E. subst. exfalso. apply Hn.
    apply (in_map fst) in Hin. exact Hin.
Qed.

Lemma fill_prob_dist_preserves (probabilities : list R)
  (remaining : list (string * string)) (d pd : dict R) (label : string) :
  fill_prob_dist probabilities remaining d = Ok pd ->
  ~ In label (map snd remaining) -> get label pd = get label d.
Proof.
  revert d. induction remaining as [|[idx name] rest IH]; simpl; intros d H Hn.
  - now injection H as <-.
  - destruct (Py.int idx) as [i | e] eqn:Ei; simpl in H; [| discriminate].
    destruct (Torch.getitem probabilities i) as [p | e] eqn:Ep; simpl in H;
      [| discriminate].
    rewrite (IH _ H) by tauto. apply get_set_other. intros ->. tauto.
Qed.

(** With distinct labels, the entry of a class is the probability that its
    key indexes. *)
Lemma fill_prob_dist_get (probabilities : list R)
  (remaining : list (string * string)) (d pd : dict R) (k label : string) :
  fill_prob_dist probabilities remaining d = Ok pd ->
  NoDup (map snd remaining) -> In (k, label) remaining ->
  exists i p, Py.int k = Ok i /\ Torch.getitem probabilities i = Ok p /\
              get label pd = Some p.
Proof.
  revert d. induction remaining as [|[idx name] rest IH]; simpl;
    intros d H Hnd Hin; [contradiction |].
  destruct (Py.int idx) as [i | e] eqn:Ei; simpl in H; [| discriminate].
  destruct (Torch.getitem probabilities i) as [p | e] eqn:Ep; simpl in H;
    [| discriminate].
  inversion Hnd as [|? ? Hn Hnd']; subst.
  destruct Hin as [Heq | Hin].
  - injection Heq as -> ->. exists i, p. repeat split; auto.
    rewrite (fill_prob_dist_preserves _ _ _ _ _ H Hn). apply get_set_same.
  - eauto.
Qed.

(** X3: in a successful result [confidence] is the largest value of
    [all_probabilities], and, when the labels of the class map are pairwise
    distinct, it is the value that [all_probabilities] holds for
    [class_name]. *)
Theorem confidence_in_all_probabilities (fs : FileSystem)
  (self : ElectricalComponentPredictor) (mask : nat -> bool) (path : string) :
  succeeded (predict fs self mask path) ->
  exists cm all label conf,
    class_map self = Some cm /\
    get "class_name" (predict fs self mask path) = Some (PyStr label) /\
    get "confidence" (predict fs self mask path) = Some (PyFloat conf) /\
    get "all_probabilities" (predict fs self mask path) = Some (PyDict all) /\
    Forall (fun p => p <= conf) (values all) /\
    (NoDup (values cm) -> get label all = Some conf).
Proof.
  intros Hok.
  destruct (predict_cases fs self mask path)
    as [(msg & _ & Hf) | (x & m & cm & conf & idx & cls & pd & Hpre & Hm & Hcm
                          & Hmax & Hget & Hfill & Hres)].
  { rewrite Hf in Hok. now apply failure_not_succeeded in Hok. }
  apply max_spec in Hmax. destruct Hmax as (Hlt & Hnth & Hall & _).
  rewrite Hres. simpl. exists cm, pd, cls, conf.
  split; [exact Hcm |]. do 3 (split; [reflexivity |]). split.
  - pose proof (fill_prob_dist_keys _ _ _ _ Hfill) as (_ & _ & Hv).
    apply Hv; [| constructor]. apply Forall_forall. intros p Hp.
    apply (In_nth _ _ 0) in Hp. destruct Hp as (j & Hj & <-). now apply Hall.
  - intros Hlabels.
    destruct (fill_prob_dist_get _ _ _ _ (str idx) cls Hfill Hlabels
                (get_In _ _ _ Hget)) as (i & p & Hi & Hp & Hentry).
    rewrite int_str in Hi. injection Hi as <-.
    rewrite tensor_getitem_nat in Hp by exact Hlt. injection Hp as <-.
    now rewrite Hentry, Hnth.
Qed.

Lemma confidence_in_all_probabilities_witness :
  exists cm all label conf,
    class_map (loaded 3 three_classes) = Some cm /\
    get "class_name"
      (predict (disk 3 three_classes) (loaded 3 three_classes) no_mask
         "uploads/photo.png") = Some (PyStr label) /\
    get "confidence"
      (predict (disk 3 three_classes) (loaded 3 three_classes) no_mask
         "uploads/photo.png") = Some (PyFloat conf) /\
    get "all_probabilities"
      (predict (disk 3 three_classes) (loaded 3 three_classes) no_mask
         "uploads/photo.png") = Some (PyDict all) /\
    Forall (fun p => p <= conf) (values all) /\
    (NoDup (values cm) -> get label all = Some conf).
Proof.
  apply (confidence_in_all_probabilities (disk 3 three_classes)
           (loaded 3 three_classes) no_mask "uploads/photo.png").
  exact photo_succeeds.
Defined.

Lemma sorted_prefix_dominates {A : Type} (key : A -> R) (l1 l2 : list A) :
  StronglySorted (fun a b => key b <= key a) (l1 ++ l2) ->
  forall a b, In a l1 -> In b l2 -> key b <= key a.
Proof.
  induction l1 as [|x l1 IH]; simpl; intros Hs a b Ha Hb; [contradiction |].
  inversion Hs as [|? ? Hs' Hall]; subst. destruct Ha as [-> | Ha].
  - rewrite Forall_forall in Hall. apply Hall, in_or_app. now right.
  - eauto.
Qed.

(** X4: in a successful result every entry of [probabilities] is an entry of
    [all_probabilities] with the same value, and no class left out of
    [probabilities] has a larger probability than a class in it. *)
Theorem top_five_are_the_largest (fs : FileSystem)
  (self : ElectricalComponentPredictor) (mask : nat -> bool) (path : string) :
  succeeded (predict fs self mask path) ->
  exists all top,
    get "all_probabilities" (predict fs self mask path) = Some (PyDict all) /\
    get "probabilities" (predict fs self mask path) = Some (PyDict top) /\
    (forall label p, In (label, p) top -> get label all = Some p) /\
    (forall inside outside,
        In inside top -> In outside all -> ~ In outside top ->
        snd outside <= snd inside).
Proof.
  intros Hok.
  destruct (predict_cases fs self mask path)
    as [(msg & _ & Hf) | (x & m & cm & conf & idx & cls & pd & Hpre & Hm & Hcm
                          & Hmax & Hget & Hfill & Hres)].
  { rewrite Hf in Hok. now apply failure_not_succeeded in Hok. }
  rewrite Hres. simpl. exists pd, (firstn 5 (sorted_reverse snd (items pd))).
  do 2 (split; [reflexivity |]).
  pose proof (sorted_reverse_perm snd (items pd)) as Hperm.
  pose proof (sorted_reverse_sorted snd (items pd)) as Hsorted.
  rewrite <- (firstn_skipn 5 (sorted_reverse snd (items pd))) in Hperm, Hsorted.
  split.
  - intros label p Hin. apply In_get.
    + apply fill_prob_dist_keys in Hfill. destruct Hfill as (_ & Hnd & _).
      apply Hnd. constructor.
    + eapply Permutation_in; [exact Hperm |]. apply in_or_app. now left.
  - intros inside outside Hin Hall Hout.
    apply (sorted_prefix_dominates snd _ _ Hsorted); [exact Hin |].
    apply (Permutation_in _ (Permutation_sym Hperm)) in Hall.
    apply in_app_or in Hall. destruct Hall as [Hall | Hall];
      [contradiction | exact Hall].
Qed.

Lemma top_five_are_the_largest_witness :
  exists all top,
    get "all_probabilities"
      (predict (disk 3 three_classes) (loaded 3 three_classes) no_mask
         "uploads/photo.png") = Some (PyDict all) /\
    get "probabilities"
      (predict (disk 3 three_classes) (loaded 3 three_classes) no_mask
         "uploads/photo.png") = Some (PyDict top) /\
    (forall label p, In (label, p) top -> get label all = Some p) /\
    (forall inside outside,
        In inside top -> In outside all -> ~ In outside top ->
        snd outside <= snd inside).
Proof.
  apply (top_five_are_the_largest (disk 3 three_classes)
           (loaded 3 three_classes) no_mask "uploads/photo.png").
  exact photo_succeeds.
Defined.





End PredictMore.

(* ================================================================== *)
(** * Part IV: properties of the web application *)
(* ================================================================== *)

(** ** Strings and paths *)

Section StrFacts.
Import Str.

Lemma append_assoc (a b c : string) :
  ((a ++ b) ++ c)%string = (a ++ b ++ c)%string.
Proof. induction a as [|x a IH]; simpl; [reflexivity | now rewrite IH]. Qed.

Lemma contains_app (c : ascii) (a b : string) :
  contains c (a ++ b) = contains c a || contains c b.
Proof.
  induction a as [|x a IH]; simpl; [reflexivity |].
  now rewrite IH, orb_assoc.
Qed.

Lemma split_last_none (sep : ascii) (s : string) :
  split_last sep s = None <-> contains sep s = false.
Proof.
  induction s as [|c s IH]; simpl; [tauto |].
  destruct (split_last sep s) as [[a b] |].
  - split; [discriminate |]. intros H. apply orb_false_iff in H.
    destruct H as [_ H]. apply IH in H. discriminate.
  - rewrite (Ascii.eqb_sym sep c). destruct (Ascii.eqb c sep); simpl.
    + split; discriminate.
    + split; intros _; [now apply IH | reflexivity].
Qed.

(** [split_last] cuts at the last separator. *)
Lemma split_last_some (sep : ascii) (s a b : string) :
  split_last sep s = Some (a, b) <->
  s = (a ++ String sep b)%string /\ contains sep b = false.
Proof.
  split.
  - revert a. induction s as [|c s IH]; simpl; intros a H; [discriminate |].
    destruct (split_last sep s) as [[a' b'] |] eqn:E.
    + injection H as <- <-. destruct (IH a' eq_refl) as [-> Hb]. now split.
    + destruct (Ascii.eqb c sep) eqn:Ec; [| discriminate].
      injection H as <- <-. apply Ascii.eqb_eq in Ec. subst.
      split; [reflexivity |]. now apply split_last_none.
  - intros [-> Hb]. induction a as [|x a IH]; simpl.
    + apply split_last_none in Hb. now rewrite Hb, Ascii.eqb_refl.
    + now rewrite IH.
Qed.

Lemma endswith_app (c : ascii) (s t : string) :
  t <> "" -> endswith c (s ++ t) = endswith c t.
Proof.
  intros Ht. induction s as [|x s IH]; simpl; [reflexivity |].
  destruct (s ++ t)%string eqn:E; [| exact IH].
  destruct s; simpl in E; [congruence | discriminate].
Qed.

Lemma startswith_contains (c : ascii) (s : string) :
  contains c s = false -> startswith c s = false.
Proof.
  destruct s as [|x s]; simpl; [reflexivity |].
  intros H. now apply orb_false_iff in H.
Qed.

Lemma strip_prefix_app (p s : string) : strip_prefix p (p ++ s) = Some s.
Proof.
  induction p as [|c p IH]; simpl; [now destruct s |].
  now rewrite Ascii.eqb_refl.
Qed.

(** Joining a directory that is not empty and does not end in a slash with a
    relative name puts one slash between them. *)
Lemma path_join_relative (a b : string) :
  a <> "" -> endswith "/" a = false -> startswith "/" b = false ->
  path_join a b = (a ++ "/" ++ b)%string.
Proof.
  intros Ha He Hb. unfold path_join. rewrite Hb, He.
  apply String.eqb_neq in Ha. now rewrite Ha.
Qed.

Lemma path_join_word (a : string) (w : string) :
  w <> "" -> startswith "/" w = false -> endswith "/" w = false ->
  path_join a w <> "" /\ endswith "/" (path_join a w) = false.
Proof.
  intros Hw Hs He. unfold path_join. rewrite Hs.
  destruct (String.eqb a "" || endswith "/" a).
  - split; [destruct a, w; simpl; congruence |].
    now rewrite endswith_app.
  - split; [destruct a; simpl; discriminate |].
    rewrite endswith_app by discriminate.
    change ("/" ++ w)%string with (String "/" w).
    destruct w as [|x w]; [congruence |]. exact He.
Qed.

Lemma contains_of_list (c : ascii) (l : list ascii) :
  Forall (fun x => x <> c) l -> contains c (string_of_list_ascii l) = false.
Proof.
  induction 1 as [|x l Hx Hl IH]; simpl; [reflexivity |].
  rewrite IH, orb_false_r. apply Ascii.eqb_neq. congruence.
Qed.

Lemma hex_char_plain (d : nat) :
  hex_char d <> "/"%char /\ hex_char d <> "."%char.
Proof.
  unfold hex_char.
  do 16 (destruct d as [|d]; [split; discriminate |]).
  simpl. destruct d; split; discriminate.
Qed.

Lemma Forall_firstn {A : Type} (P : A -> Prop) (n : nat) (l : list A) :
  Forall P l -> Forall P (firstn n l).
Proof.
  intros H. rewrite <- (firstn_skipn n l) in H. now apply Forall_app in H.
Qed.

Lemma Forall_skipn {A : Type} (P : A -> Prop) (n : nat) (l : list A) :
  Forall P l -> Forall P (skipn n l).
Proof.
  intros H. rewrite <- (firstn_skipn n l) in H. now apply Forall_app in H.
Qed.

(** The text of a UUID holds neither a slash nor a dot. *)
Lemma str_uuid_plain (v : N) :
  contains "/" (str_uuid v) = false /\ contains "." (str_uuid v) = false.
Proof.
  assert (H : Forall (fun x => x <> "/"%char /\ x <> "."%char) (hex32 v)).
  { unfold hex32. apply Forall_forall. intros c Hc. apply in_map_iff in Hc.
    destruct Hc as (i & <- & _). apply hex_char_plain. }
  assert (Hall : forall c, c = "/"%char \/ c = "."%char ->
                   contains c (str_uuid v) = false).
  { intros c Hc. unfold str_uuid. cbv zeta. apply contains_of_list.
    assert (Hh : Forall (fun x => x <> c) (hex32 v)).
    { eapply Forall_impl; [| exact H]. simpl. intros a [H1 H2].
      destruct Hc; subst; assumption. }
    assert (Hdash : "-"%char <> c) by (destruct Hc; subst; discriminate).
    repeat first [ apply Forall_app; split
                 | apply Forall_cons; [exact Hdash |]
                 | apply Forall_firstn
                 | apply Forall_skipn
                 | exact Hh ]. }
  split; apply Hall; auto.
Qed.
End StrFacts.

(** ** [allowed_file] and the name of the stored upload *)

Section UploadNames.
Import Torch Files Dep Str Web Usage WebExamples.

Lemma in_allowed_iff (x : string) :
  in_allowed x = true <-> In x ALLOWED_EXTENSIONS.
Proof.
  unfold in_allowed. rewrite existsb_exists. split.
  - intros (e & He & Heq). apply String.eqb_eq in Heq. now subst.
  - intros H. exists x. split; [exact H | apply String.eqb_refl].
Qed.

(** [allowed_file] looks at the text after the last dot only. *)
Lemma allowed_file_eval (f : string) :
  allowed_file f =
  match split_last "." f with
  | Some (_, ext) => Ok (in_allowed (lower ext))
  | None => Ok false
  end.
Proof.
  unfold allowed_file, rsplit1.
  destruct (split_last "." f) as [[a b] |] eqn:E.
  - apply split_last_some in E. destruct E as [-> _].
    rewrite contains_app. simpl. rewrite orb_true_r. reflexivity.
  - apply split_last_none in E. now rewrite E.
Qed.

Lemma allowed_file_true_iff (f : string) :
  allowed_file f = Ok true <->
  exists stem ext,
    f = (stem ++ "." ++ ext)%string /\ contains "." ext = false /\
    In (lower ext) ALLOWED_EXTENSIONS.
Proof.
  rewrite allowed_file_eval. split.
  - destruct (split_last "." f) as [[a b] |] eqn:E; [| discriminate].
    intros H. injection H as H. apply split_last_some in E.
    destruct E as [-> Hb]. exists a, b. repeat split; auto.
    now apply in_allowed_iff.
  - intros (stem & ext & -> & Hdot & Hin).
    assert (E : split_last "." (stem ++ "." ++ ext) = Some (stem, ext))
      by (apply split_last_some; now split).
    rewrite E. f_equal. now apply in_allowed_iff.
Qed.

Lemma allowed_file_total (f : string) : exists b, allowed_file f = Ok b.
Proof.
  rewrite allowed_file_eval. destruct (split_last "." f) as [[a b] |]; eauto.
Qed.

(** X6: [allowed_file] never raises: the [rsplit] is only indexed when the
    name has a dot.  It accepts a name exactly when the text after its last dot
    is, in lower case, one of the seven allowed extensions; what stands before
    that dot plays no part. *)
Theorem allowed_file_spec (f : string) :
  (exists b, allowed_file f = Ok b) /\
  (allowed_file f = Ok true <->
   exists stem ext,
     f = (stem ++ "." ++ ext)%string /\ contains "." ext = false /\
     In (lower ext) ALLOWED_EXTENSIONS) /\
  (contains "." f = false -> allowed_file f = Ok false) /\
  (forall stem ext, contains "." ext = false ->
     allowed_file (stem ++ "." ++ ext) = Ok (in_allowed (lower ext))).
Proof.
  split; [| split; [| split]].
  - apply allowed_file_total.
  - apply allowed_file_true_iff.
  - intros H. unfold allowed_file. now rewrite H.
  - intros stem ext Hdot. rewrite allowed_file_eval.
    assert (E : split_last "." (stem ++ "." ++ ext) = Some (stem, ext))
      by (apply split_last_some; now split).
    now rewrite E.
Qed.

Lemma allowed_extension_plain (e : string) :
  In e ALLOWED_EXTENSIONS ->
  lower e = e /\ contains "." e = false /\ contains "/" e = false.
Proof.
  unfold ALLOWED_EXTENSIONS. simpl.
  intros H. repeat (destruct H as [<- | H]; [repeat split |]). contradiction.
Qed.

Lemma upload_folder_shape (dir : string) :
  UPLOAD_FOLDER dir <> "" /\ endswith "/" (UPLOAD_FOLDER dir) = false.
Proof. unfold UPLOAD_FOLDER. apply path_join_word; [discriminate | |]; reflexivity. Qed.

(** The extension that the handler takes from an accepted name. *)
Lemma accepted_extension (f : string) :
  allowed_file f = Ok true ->
  exists ext, item (rsplit1 "." f) 1 = Ok ext /\
              In (lower ext) ALLOWED_EXTENSIONS.
Proof.
  intros H. apply allowed_file_true_iff in H.
  destruct H as (stem & ext & -> & Hdot & Hin). exists ext.
  assert (E : split_last "." (stem ++ "." ++ ext) = Some (stem, ext))
    by (apply split_last_some; now split).
  unfold rsplit1. rewrite E. now split.
Qed.

Lemma stored_path (dir : string) (v : N) (e : string) :
  In e ALLOWED_EXTENSIONS ->
  let name := (str_uuid v ++ "." ++ e)%string in
  path_join (UPLOAD_FOLDER dir) name = (UPLOAD_FOLDER dir ++ "/" ++ name)%string /\
  contains "/" name = false /\
  strip_prefix (UPLOAD_FOLDER dir ++ "/") (path_join (UPLOAD_FOLDER dir) name)
    = Some name.
Proof.
  intros He name.
  destruct (allowed_extension_plain e He) as (_ & _ & Hslash).
  destruct (str_uuid_plain v) as (Hu & _).
  destruct (upload_folder_shape dir) as (Hne & Hend).
  assert (Hname : contains "/" name = false).
  { unfold name. rewrite contains_app, Hu. simpl. exact Hslash. }
  assert (Hjoin : path_join (UPLOAD_FOLDER dir) name
                  = (UPLOAD_FOLDER dir ++ "/" ++ name)%string).
  { apply path_join_relative; auto. now apply startswith_contains. }
  split; [exact Hjoin |]. split; [exact Hname |].
  rewrite Hjoin, <- append_assoc. apply strip_prefix_app.
Qed.


End UploadNames.

(** ** The upload folder *)

Section FolderFacts.
Import Torch Files Dep Str Web Usage WebExamples.
Local Open Scope R_scope.

Lemma get_filter {V : Type} (f : string * V -> bool) (d : dict V) (k : string) :
  NoDup (keys d) ->
  get k (filter f d) =
  match get k d with
  | Some v => if f (k, v) then Some v else None
  | None => None
  end.
Proof.
  induction d as [|[k' v'] d IH]; simpl; intros Hnd; [reflexivity |].
  inversion Hnd as [|? ? Hn Hnd']; subst.
  destruct (String.eqb k k') eqn:E.
  - apply String.eqb_eq in E. subst k'.
    destruct (f (k, v')) eqn:Ef; simpl.
    + now rewrite String.eqb_refl.
    + rewrite IH by assumption. apply get_None_iff in Hn. now rewrite Hn.
  - destruct (f (k', v')); simpl; [rewrite E |]; now apply IH.
Qed.

Lemma keys_filter_subset {V : Type} (f : string * V -> bool) (d : dict V)
  (k : string) : In k (keys (filter f d)) -> In k (keys d).
Proof.
  unfold keys. intros H. apply in_map_iff in H. destruct H as ([k' v] & <- & H).
  apply filter_In in H. destruct H as [H _]. now apply (in_map fst) in H.
Qed.

Lemma NoDup_keys_filter {V : Type} (f : string * V -> bool) (d : dict V) :
  NoDup (keys d) -> NoDup (keys (filter f d)).
Proof.
  induction d as [|[k v] d IH]; simpl; intros Hnd; [constructor |].
  inversion Hnd as [|? ? Hn Hnd']; subst.
  destruct (f (k, v)); simpl; [| auto].
  constructor; [| auto]. intros Hin. apply Hn.
  now apply keys_filter_subset in Hin.
Qed.

Lemma get_delete (folder : Folder) (k name : string) :
  NoDup (keys folder) ->
  get k (delete name folder) = if String.eqb k name then None else get k folder.
Proof.
  induction folder as [|[n v] folder IH]; simpl; intros Hnd.
  - now destruct (String.eqb k name).
  - inversion Hnd as [|? ? Hn Hnd']; subst.
    destruct (String.eqb name n) eqn:E.
    + apply String.eqb_eq in E. subst n.
      destruct (String.eqb k name) eqn:Ek; [| reflexivity].
      apply String.eqb_eq in Ek. subst k. now apply get_None_iff.
    + simpl. destruct (String.eqb k n) eqn:Ek.
      * apply String.eqb_eq in Ek. subst n.
        rewrite String.eqb_sym in E. now rewrite E.
      * now apply IH.
Qed.

Lemma cleanup_twice (t t' : R) (folder : Folder) :
  t <= t' ->
  cleanup_old_files t' (cleanup_old_files t folder) = cleanup_old_files t' folder.
Proof.
  intros Ht. unfold cleanup_old_files.
  induction folder as [|[n [mtime c]] folder IH]; simpl; [reflexivity |].
  destruct (Rlt_dec 3600 (t - mtime)) as [Hold | Hnew]; simpl.
  - destruct (Rlt_dec 3600 (t' - mtime)) as [_ | Hnew']; [exact IH | lra].
  - destruct (Rlt_dec 3600 (t' - mtime)); [exact IH | now rewrite IH].
Qed.

Lemma get_cleanup (t : R) (folder : Folder) (name : string) :
  NoDup (keys folder) ->
  get name (cleanup_old_files t folder) =
  match get name folder with
  | Some (mtime, c) => if Rlt_dec 3600 (t - mtime) then None else Some (mtime, c)
  | None => None
  end.
Proof.
  intros Hnd. unfold cleanup_old_files. rewrite get_filter by assumption.
  destruct (get name folder) as [[mtime c] |]; [| reflexivity]. simpl.
  now destruct (Rlt_dec 3600 (t - mtime)).
Qed.

(** X8: [cleanup_old_files] removes exactly the files that are more than 3600
    seconds old (a file of exactly that age stays) and changes no file that it
    keeps; cleaning again at a later time gives what one clean-up at the later
    time gives. *)
Theorem cleanup_old_files_spec (t : R) (folder : Folder) :
  NoDup (keys folder) ->
  (forall name mtime c,
      get name (cleanup_old_files t folder) = Some (mtime, c) <->
      get name folder = Some (mtime, c) /\ t - mtime <= 3600) /\
  NoDup (keys (cleanup_old_files t folder)) /\
  (forall t', t <= t' ->
     cleanup_old_files t' (cleanup_old_files t folder) =
     cleanup_old_files t' folder).
Proof.
  intros Hnd. split; [| split].
  - intros name mtime c. rewrite get_cleanup by assumption.
    destruct (get name folder) as [[mtime' c'] |].
    + destruct (Rlt_dec 3600 (t - mtime')) as [Hold | Hnew].
      * split; [discriminate |]. intros [H Hage]. injection H as -> ->. lra.
      * split.
        -- intros H. injection H as -> ->. split; [reflexivity | lra].
        -- now intros [H _].
    + split; [discriminate | now intros [H _]].
  - apply NoDup_keys_filter, Hnd.
  - intros t' Ht. now apply cleanup_twice.
Qed.

Lemma idle_folder_names : NoDup (keys (folder idle)).
Proof. repeat constructor. simpl. tauto. Qed.

Lemma cleanup_old_files_spec_witness :
  (forall name mtime c,
      get name (cleanup_old_files 101 (folder idle)) = Some (mtime, c) <->
      get name (folder idle) = Some (mtime, c) /\ 101 - mtime <= 3600) /\
  NoDup (keys (cleanup_old_files 101 (folder idle))) /\
  (forall t', 101 <= t' ->
     cleanup_old_files t' (cleanup_old_files 101 (folder idle)) =
     cleanup_old_files t' (folder idle)).
Proof.
  apply (cleanup_old_files_spec 101 (folder idle)).
  exact idle_folder_names.
Defined.
End FolderFacts.

(** ** The [/predict] handler *)

Section PredictRoute.
Import Torch Files Dep Str Web Usage WebExamples.

Lemma init_ext (fs fs' : FileSystem) (cuda : bool) (mp cp : string)
  (dev : option string) :
  fs mp = fs' mp -> fs cp = fs' cp ->
  __init__ fs cuda mp cp dev = __init__ fs' cuda mp cp dev.
Proof.
  intros Hmp Hcp.
  unfold __init__, _load_model, _load_class_map, exists_, json_load, torch_load,
    load_state_dict.
  simpl. rewrite Hmp, Hcp.
  destruct (fs' mp) as [| g | ms | sd | img]; simpl; try reflexivity;
    destruct (fs' cp) as [| g' | members | sd' | img'] eqn:Ecp; simpl;
    try reflexivity.
  destruct (Nat.eqb (fc_3_out_features sd) (len (of_pairs members))); simpl;
    [| reflexivity].
  now rewrite Hcp, Ecp.
Qed.

(** [predict] reads the file system at the image path only. *)
Lemma predict_ext (fs fs' : FileSystem) (self : ElectricalComponentPredictor)
  (mask : nat -> bool) (path : string) :
  fs path = fs' path -> predict fs self mask path = predict fs' self mask path.
Proof.
  intros H. unfold predict, preprocess_image, exists_, image_open.
  now rewrite H.
Qed.

Lemma strip_prefix_common (p a b : string) :
  strip_prefix (p ++ a) (p ++ b) = strip_prefix a b.
Proof.
  induction p as [|c p IH]; simpl; [reflexivity |].
  now rewrite Ascii.eqb_refl.
Qed.

Lemma upload_folder_forms (dir : string) :
  UPLOAD_FOLDER dir = (dir ++ "static/uploads")%string \/
  UPLOAD_FOLDER dir = (dir ++ "/static/uploads")%string.
Proof.
  unfold UPLOAD_FOLDER.
  assert (H : path_join dir "static" = (dir ++ "static")%string \/
              path_join dir "static" = (dir ++ "/static")%string).
  { unfold path_join. simpl.
    destruct (String.eqb dir "" || endswith "/" dir); auto. }
  assert (Hw : path_join dir "static" <> "" /\
               endswith "/" (path_join dir "static") = false)
    by (apply path_join_word; [discriminate | |]; reflexivity).
  destruct Hw as [Hne He].
  rewrite (path_join_relative _ "uploads" Hne He eq_refl).
  destruct H as [-> | ->]; [left | right]; now rewrite append_assoc.
Qed.

(** The model files lie outside the upload folder. *)
Lemma disk_view_model (dir : string) (rest : FileSystem) (folder : Folder)
  (file : string) :
  disk_view dir rest folder (dir ++ "/../model/" ++ file)%string
  = rest (dir ++ "/../model/" ++ file)%string.
Proof.
  unfold disk_view.
  destruct (upload_folder_forms dir) as [-> | ->];
    rewrite append_assoc, strip_prefix_common; reflexivity.
Qed.

Lemma create_through_view (w : Ambient) (folder : Folder) :
  create_predictor (disk_view (here w) (rest w) folder) (cuda w) (here w)
    None None = loads_on w.
Proof.
  unfold loads_on, create_predictor. apply init_ext.
  - apply (disk_view_model (here w) (rest w) folder
             "electrical_component_classifier.pth").
  - apply (disk_view_model (here w) (rest w) folder "class_map.json").
Qed.

Lemma get_predictor_through_view (w : Ambient) (folder : Folder)
  (g : option ElectricalComponentPredictor) :
  App.get_predictor (env_of w folder) g =
  match g with
  | Some p => (Ok p, Some p)
  | None => match loads_on w with
            | Ok p => (Ok p, Some p)
            | Raise e => (Raise e, None)
            end
  end.
Proof.
  unfold App.get_predictor, env_of. simpl.
  destruct g; [reflexivity |]. now rewrite create_through_view.
Qed.

(** The predictor finds under the stored path what the folder holds under the
    stored name. *)
Lemma disk_view_stored (w : Ambient) (folder : Folder) (e : string) :
  In e ALLOWED_EXTENSIONS ->
  disk_view (here w) (rest w) folder
    (path_join (UPLOAD_FOLDER (here w)) (stored_name w e)) =
  match get (stored_name w e) folder with
  | Some (_, c) => c
  | None => Absent
  end.
Proof.
  intros He. unfold disk_view, stored_name.
  destruct (stored_path (here w) (uuid4 w) e He) as (_ & _ & Hstrip).
  cbv zeta in Hstrip. now rewrite Hstrip.
Qed.

(** What the handler does with a request that passes its checks. *)
Lemma predict_route_accepted (w : Ambient) (srv : Server) (req : Request)
  (file : FileStorage) :
  acceptable req -> file_part req = Some file ->
  exists ext,
    In ext ALLOWED_EXTENSIONS /\
    let name := stored_name w ext in
    let cleaned :=
      cleanup_old_files (now w)
        (set name (saved_at w, content file) (folder srv)) in
    predict_route w srv req =
    match App.get_predictor (env_of w cleaned) (predictor srv) with
    | (Raise e, global) =>
        ({| status := 500;
            body := error_body "Internal server error. Please try again." |},
         {| predictor := global; folder := cleaned |})
    | (Ok p, global) =>
        ({| status := 200;
            body :=
              set "original_filename"
                (PyStr (secure_filename w (filename file)))
                (set "filename" (PyStr name)
                   (predict (disk_view (here w) (rest w) cleaned) p (mask w)
                      (path_join (UPLOAD_FOLDER (here w)) name))) |},
         {| predictor := global;
            folder := match os_remove name cleaned with
                      | Ok folder' => folder'
                      | Raise _ => cleaned
                      end |})
    end.
Proof.
  intros (Hlen & file' & Hfile' & Hname & Hallowed) Hfile.
  rewrite Hfile in Hfile'. injection Hfile' as <-.
  destruct (accepted_extension _ Hallowed) as (ext & Hitem & Hin).
  exists (lower ext). split; [exact Hin |]. cbv zeta.
  unfold predict_route, predict_body, request_files.
  replace (MAX_CONTENT_LENGTH <? content_length req)%N with false
    by (symmetry; apply N.ltb_ge; exact Hlen).
  rewrite Hfile. apply String.eqb_neq in Hname. rewrite Hname, Hallowed, Hitem.
  fold (stored_name w (lower ext)).
  destruct (App.get_predictor _ (predictor srv)) as [[p | e] global];
    reflexivity.
Qed.

(** The four outcomes of the handler and when each occurs. *)
Lemma predict_route_cases (w : Ambient) (srv : Server) (req : Request) :
  ((MAX_CONTENT_LENGTH < content_length req)%N /\
   predict_route w srv req =
     ({| status := 413;
         body := error_body "File too large. Maximum size is 16MB." |}, srv)) \/
  (malformed req /\
   exists message,
     predict_route w srv req =
       ({| status := 400; body := error_body message |}, srv)) \/
  (acceptable req /\ predictor srv = None /\ (exists e, loads_on w = Raise e) /\
   status (fst (predict_route w srv req)) = 500 /\
   predictor (snd (predict_route w srv req)) = None) \/
  (acceptable req /\
   (predictor srv <> None \/ exists p, loads_on w = Ok p) /\
   status (fst (predict_route w srv req)) = 200 /\
   predictor (snd (predict_route w srv req)) <> None).
Proof.
  destruct (N.ltb MAX_CONTENT_LENGTH (content_length req)) eqn:Elen.
  { left. split; [now apply N.ltb_lt |].
    unfold predict_route, predict_body, request_files. now rewrite Elen. }
  right. apply N.ltb_ge in Elen.
  assert (Hfiles : request_files req = inr (file_part req)).
  { unfold request_files.
    replace (MAX_CONTENT_LENGTH <? content_length req)%N with false
      by (symmetry; now apply N.ltb_ge). reflexivity. }
  destruct (file_part req) as [file |] eqn:Efile.
  2: { left. split; [split; auto |]. eexists.
       unfold predict_route, predict_body. rewrite Hfiles. reflexivity. }
  destruct (String.eqb (filename file) "") eqn:Ename.
  { left. split.
    - split; [exact Elen |]. right. exists file. split; [exact Efile |].
      left. now apply String.eqb_eq.
    - eexists. unfold predict_route, predict_body. rewrite Hfiles, Ename.
      reflexivity. }
  destruct (allowed_file_total (filename file)) as [[|] Hallowed].
  2: { left. split.
       - split; [exact Elen |]. right. exists file. split; [exact Efile |].
         now right.
       - eexists. unfold predict_route, predict_body.
         rewrite Hfiles, Ename, Hallowed. reflexivity. }
  right.
  assert (Hacc : acceptable req).
  { split; [exact Elen |]. exists file. split; [exact Efile |].
    split; [now apply String.eqb_neq | exact Hallowed]. }
  destruct (predict_route_accepted w srv req file Hacc Efile)
    as (ext & Hin & Hroute).
  cbv zeta in Hroute. rewrite get_predictor_through_view in Hroute.
  rewrite Hroute.
  destruct (predictor srv) as [p |] eqn:Ep.
  - right. split; [exact Hacc |]. split; [left; discriminate |]. simpl.
    split; [reflexivity | discriminate].
  - destruct (loads_on w) as [p | e] eqn:Eload; simpl.
    + right. split; [exact Hacc |]. split; [right; eauto |].
      split; [reflexivity | discriminate].
    + left. split; [exact Hacc |]. split; [reflexivity |]. split; [eauto |].
      split; reflexivity.
Qed.

Lemma malformed_not_acceptable (req : Request) :
  malformed req -> ~ acceptable req.
Proof.
  intros (_ & [Hnone | (file & Hfile & Hbad)]) (_ & file' & Hfile' & Hname & Hok).
  - congruence.
  - rewrite Hfile in Hfile'. injection Hfile' as <-.
    destruct Hbad; congruence.
Qed.


Lemma photo_request_acceptable : acceptable photo_request.
Proof.
  split; [discriminate |]. eexists. split; [reflexivity |].
  split; [discriminate | reflexivity].
Qed.

Lemma world_loads : loads_on world = Ok (Examples.loaded 3 Examples.three_classes).
Proof. reflexivity. Qed.

Lemma NoDup_keys_delete (name : string) (folder : Folder) :
  NoDup (keys folder) -> NoDup (keys (delete name folder)).
Proof.
  induction folder as [|[n v] folder IH]; simpl; intros Hnd; [constructor |].
  inversion Hnd as [|? ? Hn Hnd']; subst.
  destruct (String.eqb name n); [exact Hnd' |]. simpl.
  constructor; [| auto]. intros Hin. apply Hn. clear - Hin.
  induction folder as [|[n' v'] folder IH]; simpl in *; [contradiction |].
  destruct (String.eqb name n'); simpl in *; tauto.
Qed.

(** The folder that the handler leaves behind for an accepted request. *)
Lemma predict_route_folder (w : Ambient) (srv : Server) (req : Request)
  (file : FileStorage) :
  NoDup (keys (folder srv)) ->
  acceptable req -> file_part req = Some file ->
  exists ext,
    In ext ALLOWED_EXTENSIONS /\
    NoDup (keys (folder (snd (predict_route w srv req)))) /\
    (forall other, other <> stored_name w ext ->
       get other (folder (snd (predict_route w srv req))) =
       get other (cleanup_old_files (now w) (folder srv))) /\
    (status (fst (predict_route w srv req)) = 200 ->
     get (stored_name w ext) (folder (snd (predict_route w srv req))) = None) /\
    (status (fst (predict_route w srv req)) = 500 ->
     (now w - saved_at w <= 3600)%R ->
     get (stored_name w ext) (folder (snd (predict_route w srv req))) =
       Some (saved_at w, content file)).
Proof.
  intros Hnd Hacc Hfile.
  destruct (predict_route_accepted w srv req file Hacc Hfile)
    as (ext & Hin & Hroute).
  exists ext. split; [exact Hin |]. cbv zeta in Hroute.
  set (name := stored_name w ext) in *.
  set (saved := set name (saved_at w, content file) (folder srv)) in *.
  set (cleaned := cleanup_old_files (now w) saved) in *.
  assert (Hsaved : NoDup (keys saved)) by now apply NoDup_keys_set.
  assert (Hcleaned : NoDup (keys cleaned)) by now apply NoDup_keys_filter.
  assert (Hother : forall other, other <> name ->
            get other cleaned = get other (cleanup_old_files (now w) (folder srv))).
  { intros other Hne. unfold cleaned, saved.
    rewrite !get_cleanup by assumption. now rewrite get_set_other. }
  assert (Hmine : get name cleaned =
                  if Rlt_dec 3600 (now w - saved_at w) then None
                  else Some (saved_at w, content file)).
  { unfold cleaned, saved. rewrite get_cleanup by assumption.
    now rewrite get_set_same. }
  rewrite Hroute.
  destruct (App.get_predictor (env_of w cleaned) (predictor srv))
    as [[p | e] global]; simpl.
  - unfold os_remove. destruct (get name cleaned) as [v |] eqn:Eget.
    + split; [now apply NoDup_keys_delete |]. split; [| split].
      * intros other Hne. rewrite get_delete by assumption.
        rewrite (proj2 (String.eqb_neq other name) Hne). now apply Hother.
      * intros _. rewrite get_delete by assumption.
        now rewrite String.eqb_refl.
      * discriminate.
    + split; [exact Hcleaned |]. split; [exact Hother |].
      split; [now intros _ | discriminate].
  - split; [exact Hcleaned |]. split; [exact Hother |].
    split; [discriminate |]. intros _ Hfresh. rewrite Hmine.
    destruct (Rlt_dec 3600 (now w - saved_at w)); [lra | reflexivity].
Qed.

(** X10: a request that the [/predict] handler refuses (status 400 or 413)
    changes neither the predictor nor the upload folder.  For a request that
    it accepts, every other file of the folder is treated as one clean-up at
    the request's time treats it; after status 200 the upload itself is gone
    again, and after status 500 (the predictor could not be loaded) the upload
    stays in the folder. *)
Theorem upload_lifecycle (w : Ambient) (srv : Server) (req : Request) :
  NoDup (keys (folder srv)) ->
  (status (fst (predict_route w srv req)) = 400 \/
   status (fst (predict_route w srv req)) = 413 ->
   snd (predict_route w srv req) = srv) /\
  (forall file,
      file_part req = Some file ->
      status (fst (predict_route w srv req)) = 200 \/
      status (fst (predict_route w srv req)) = 500 ->
      exists ext,
        In ext ALLOWED_EXTENSIONS /\
        NoDup (keys (folder (snd (predict_route w srv req)))) /\
        (forall other, other <> stored_name w ext ->
           get other (folder (snd (predict_route w srv req))) =
           get other (cleanup_old_files (now w) (folder srv))) /\
        (status (fst (predict_route w srv req)) = 200 ->
         get (stored_name w ext) (folder (snd (predict_route w srv req)))
         = None) /\
        (status (fst (predict_route w srv req)) = 500 ->
         (now w - saved_at w <= 3600)%R ->
         get (stored_name w ext) (folder (snd (predict_route w srv req))) =
           Some (saved_at w, content file))).
Proof.
  intros Hnd.
  destruct (predict_route_cases w srv req)
    as [(Hbig & Hr) | [(Hbad & message & Hr)
                      | [(Hacc & Hnone & Hfail & Hs & _)
                        | (Hacc & Hcan & Hs & _)]]].
  - rewrite Hr. simpl. split; [reflexivity |].
    intros file _ [H | H]; discriminate.
  - rewrite Hr. simpl. split; [reflexivity |].
    intros file _ [H | H]; discriminate.
  - split; [rewrite Hs; intros [H | H]; discriminate |].
    intros file Hfile _. now apply predict_route_folder.
  - split; [rewrite Hs; intros [H | H]; discriminate |].
    intros file Hfile _. now apply predict_route_folder.
Qed.

Lemma upload_lifecycle_witness :
  (status (fst (predict_route world idle photo_request)) = 400 \/
   status (fst (predict_route world idle photo_request)) = 413 ->
   snd (predict_route world idle photo_request) = idle) /\
  (forall file,
      file_part photo_request = Some file ->
      status (fst (predict_route world idle photo_request)) = 200 \/
      status (fst (predict_route world idle photo_request)) = 500 ->
      exists ext,
        In ext ALLOWED_EXTENSIONS /\
        NoDup (keys (folder (snd (predict_route world idle photo_request)))) /\
        (forall other, other <> stored_name world ext ->
           get other (folder (snd (predict_route world idle photo_request))) =
           get other (cleanup_old_files (now world) (folder idle))) /\
        (status (fst (predict_route world idle photo_request)) = 200 ->
         get (stored_name world ext)
           (folder (snd (predict_route world idle photo_request))) = None) /\
        (status (fst (predict_route world idle photo_request)) = 500 ->
         (now world - saved_at world <= 3600)%R ->
         get (stored_name world ext)
           (folder (snd (predict_route world idle photo_request))) =
           Some (saved_at world, content file))).
Proof.
  apply (upload_lifecycle world idle photo_request).
  exact idle_folder_names.
Defined.

Lemma predict_not_picture (fs : FileSystem)
  (self : ElectricalComponentPredictor) (mask : nat -> bool) (path : string) :
  (forall img, fs path <> Picture img) ->
  predict fs self mask path = failure "Failed to preprocess image".
Proof.
  intros H. unfold predict, preprocess_image, exists_, image_open.
  destruct (fs path) as [| g | ms | sd | img]; try reflexivity.
  now destruct (H img).
Qed.

(** X11: a response with status 200 carries the result of the predictor for
    the uploaded content, with the stored name as [filename] and the cleaned
    client name as [original_filename]; every other field is that of
    [predict] on a disk that holds the upload at the stored path (the upload
    being at most 3600 seconds old when the clean-up runs).  An upload that
    is not a decodable picture is answered with status 200, [success] false
    and the error "Failed to preprocess image". *)
Theorem response_is_prediction_for_upload (w : Ambient) (srv : Server)
  (req : Request) (file : FileStorage) :
  NoDup (keys (folder srv)) ->
  file_part req = Some file ->
  status (fst (predict_route w srv req)) = 200 ->
  exists ext p,
    In ext ALLOWED_EXTENSIONS /\
    predictor (snd (predict_route w srv req)) = Some p /\
    (predictor srv = Some p \/ predictor srv = None /\ loads_on w = Ok p) /\
    get "filename" (body (fst (predict_route w srv req))) =
      Some (PyStr (stored_name w ext)) /\
    get "original_filename" (body (fst (predict_route w srv req))) =
      Some (PyStr (secure_filename w (filename file))) /\
    (forall fs' key,
        (now w - saved_at w <= 3600)%R ->
        fs' (stored_path_of w ext) = content file ->
        key <> "filename" -> key <> "original_filename" ->
        get key (body (fst (predict_route w srv req))) =
        get key (predict fs' p (mask w) (stored_path_of w ext))) /\
    ((forall img, content file <> Picture img) ->
     get "success" (body (fst (predict_route w srv req))) = Some (PyBool false) /\
     get "error" (body (fst (predict_route w srv req))) =
       Some (PyStr "Failed to preprocess image")).
Proof.
  intros Hnd Hfile Hstatus.
  assert (Hacc : acceptable req).
  { destruct (predict_route_cases w srv req)
      as [(_ & Hr) | [(_ & message & Hr) | [(_ & _ & _ & Hs & _) | (H & _)]]];
      [rewrite Hr in Hstatus | rewrite Hr in Hstatus | rewrite Hs in Hstatus
      | exact H]; discriminate. }
  destruct (predict_route_accepted w srv req file Hacc Hfile)
    as (ext & Hin & Hroute).
  cbv zeta in Hroute. rewrite get_predictor_through_view in Hroute.
  set (name := stored_name w ext) in *.
  set (saved := set name (saved_at w, content file) (folder srv)) in *.
  set (cleaned := cleanup_old_files (now w) saved) in *.
  assert (Hsaved : NoDup (keys saved)) by now apply NoDup_keys_set.
  assert (Hpath : path_join (UPLOAD_FOLDER (here w)) name = stored_path_of w ext).
  { destruct (stored_path (here w) (uuid4 w) ext Hin) as (Hjoin & _).
    exact Hjoin. }
  assert (Hview : disk_view (here w) (rest w) cleaned (stored_path_of w ext) =
                  if Rlt_dec 3600 (now w - saved_at w) then Absent
                  else content file).
  { rewrite <- Hpath. unfold name. rewrite disk_view_stored by exact Hin.
    fold name. unfold cleaned, saved. rewrite get_cleanup by assumption.
    rewrite get_set_same. now destruct (Rlt_dec 3600 (now w - saved_at w)). }
  rewrite Hpath in Hroute.
  assert (Hgoal : forall p,
    predict_route w srv req =
      ({| status := 200;
          body := set "original_filename"
                    (PyStr (secure_filename w (filename file)))
                    (set "filename" (PyStr name)
                       (predict (disk_view (here w) (rest w) cleaned) p (mask w)
                          (stored_path_of w ext))) |},
       {| predictor := Some p;
          folder := match os_remove name cleaned with
                    | Ok folder' => folder'
                    | Raise _ => cleaned
                    end |}) ->
    predictor (snd (predict_route w srv req)) = Some p /\
    get "filename" (body (fst (predict_route w srv req))) = Some (PyStr name) /\
    get "original_filename" (body (fst (predict_route w srv req))) =
      Some (PyStr (secure_filename w (filename file))) /\
    (forall fs' key,
        (now w - saved_at w <= 3600)%R ->
        fs' (stored_path_of w ext) = content file ->
        key <> "filename" -> key <> "original_filename" ->
        get key (body (fst (predict_route w srv req))) =
        get key (predict fs' p (mask w) (stored_path_of w ext))) /\
    ((forall img, content file <> Picture img) ->
     get "success" (body (fst (predict_route w srv req))) = Some (PyBool false) /\
     get "error" (body (fst (predict_route w srv req))) =
       Some (PyStr "Failed to preprocess image"))).
  { intros p Hr. rewrite Hr. simpl.
    split; [reflexivity |]. split; [| split; [| split]].
    - rewrite get_set_other by discriminate. apply get_set_same.
    - apply get_set_same.
    - intros fs' key Hfresh Hfs Hk1 Hk2.
      rewrite !get_set_other by assumption. f_equal. apply predict_ext.
      rewrite Hview, Hfs.
      destruct (Rlt_dec 3600 (now w - saved_at w)); [lra | reflexivity].
    - intros Hnot. rewrite predict_not_picture.
      + split; reflexivity.
      + intros img. rewrite Hview.
        destruct (Rlt_dec 3600 (now w - saved_at w));
          [discriminate | apply Hnot]. }
  destruct (predictor srv) as [p |] eqn:Ep.
  - exists ext, p. split; [exact Hin |].
    destruct (Hgoal p Hroute) as (H1 & H2). split; [exact H1 |].
    split; [now left | exact H2].
  - destruct (loads_on w) as [p | e] eqn:Eload.
    + exists ext, p. split; [exact Hin |].
      destruct (Hgoal p Hroute) as (H1 & H2). split; [exact H1 |].
      split; [now right | exact H2].
    + rewrite Hroute in Hstatus. discriminate.
Qed.
End PredictRoute.

Section PredictRouteExamples.
Import Torch Files Dep Str Web Usage WebExamples.

Lemma photo_request_status :
  status (fst (predict_route world idle photo_request)) = 200.
Proof.
  destruct (predict_route_cases world idle photo_request)
    as [(Hbig & _) | [(Hbad & _) | [(_ & _ & (e & He) & _) | (_ & _ & Hs & _)]]].
  - apply N.ltb_lt in Hbig. discriminate.
  - destruct (malformed_not_acceptable _ Hbad photo_request_acceptable).
  - rewrite world_loads in He. discriminate.
  - exact Hs.
Qed.

Lemma response_is_prediction_for_upload_witness :
  exists ext p,
    In ext ALLOWED_EXTENSIONS /\
    predictor (snd (predict_route world idle photo_request)) = Some p /\
    (predictor idle = Some p \/ predictor idle = None /\ loads_on world = Ok p) /\
    get "filename" (body (fst (predict_route world idle photo_request))) =
      Some (PyStr (stored_name world ext)) /\
    get "original_filename" (body (fst (predict_route world idle photo_request))) =
      Some (PyStr (secure_filename world "board.PNG")) /\
    (forall fs' key,
        (now world - saved_at world <= 3600)%R ->
        fs' (stored_path_of world ext) = Picture (RGB []) ->
        key <> "filename" -> key <> "original_filename" ->
        get key (body (fst (predict_route world idle photo_request))) =
        get key (predict fs' p (mask world) (stored_path_of world ext))) /\
    ((forall img, Picture (RGB []) <> Picture img) ->
     get "success" (body (fst (predict_route world idle photo_request))) =
       Some (PyBool false) /\
     get "error" (body (fst (predict_route world idle photo_request))) =
       Some (PyStr "Failed to preprocess image")).
Proof.
  apply (response_is_prediction_for_upload world idle photo_request
           {| filename := "board.PNG"; content := Picture (RGB []) |}).
  - exact idle_folder_names.
  - reflexivity.
  - exact photo_request_status.
Defined.
End PredictRouteExamples.

(** ** The [/health] and [/classes] handlers *)

Section Handlers.
Import Torch Files Dep Str Web Usage WebExamples.







(** X13: on the same server state [/classes] and [/health] succeed or fail
    together, leave the same predictor behind and, when they succeed, report
    the same number of classes, which is also the number of keys of the
    mapping that [/classes] returns. *)
Theorem classes_agrees_with_health (env : App.Env) (t : string)
  (global : option ElectricalComponentPredictor) :
  fst (fst (get_classes env global)) = fst (fst (health env t global)) /\
  snd (get_classes env global) = snd (health env t global) /\
  (forall n cs cm,
      snd (fst (get_classes env global)) = Classes n cs cm ->
      snd (fst (health env t global)) = Healthy true n t /\
      n = List.length (keys cm) /\ cs = values cm /\
      exists p, snd (get_classes env global) = Some p /\ class_map p = Some cm) /\
  (forall msg,
      snd (fst (get_classes env global)) = ClassesError msg ->
      snd (fst (health env t global)) = Unhealthy msg t).
Proof.
  unfold get_classes, health.
  destruct (App.get_predictor env global) as [[p | e] global'] eqn:Eget.
  - assert (Hglobal : global' = Some p).
    { unfold App.get_predictor in Eget. destruct global as [q |].
      - now inversion Eget.
      - destruct (create_predictor _ _ _ _ _); now inversion Eget. }
    subst global'. unfold get_class_info.
    destruct (class_map p) as [cm |] eqn:Ecm; simpl.
    + split; [reflexivity |]. split; [reflexivity |]. split.
      * intros n cs cm' H. inversion H; subst.
        split; [reflexivity |]. split; [apply eq_sym, length_map |].
        split; [reflexivity |]. now exists p.
      * discriminate.
    + split; [reflexivity |]. split; [reflexivity |]. split.
      * discriminate.
      * intros msg H. now inversion H.
  - simpl. split; [reflexivity |]. split; [reflexivity |]. split.
    + discriminate.
    + intros msg H. now inversion H.
Qed.
End Handlers.
